(** * firewalld: the IpTables rule orchestrator (src/iptables.cc)

    A shallow embedding of [firewalld::IpTables] and a verification of the
    hole registry, the dual-stack accept-rule protocol and the VPN
    setup/teardown sequence.

    The object's fields ([tcp_holes_], [udp_holes_], [ip6_enabled_]) are an
    explicit record; the two external collaborators (brillo::Minijail and
    brillo::ProcessImpl) are an interface whose answers may depend on, and
    change, an abstract outside world.  Every command handed to one of them
    is appended to a trace, so that "no command is issued" and "issued in
    this order" are statements about that trace. *)

From stdpp Require Import gmap strings list sorting pretty.
From Stdlib Require Import ZArith Ascii.

#[local] Set Warnings "-clear-no-such-hyp".

(** ** Data model *)

(** [ProtocolEnum] and [IPVersionEnum] of iptables.h. *)
Inductive ProtocolEnum := kProtocolTcp | kProtocolUdp.
Inductive IPVersionEnum := kIPv4 | kIPv6.

(** [typedef std::pair<uint16_t, std::string> Hole]. *)
Definition Hole : Type := N * string.

(** One external process started by the daemon: through minijail (dropping
    root to [user] when one is given, keeping the capabilities of [capmask])
    or directly through brillo::ProcessImpl. *)
Inductive Command :=
| Jailed (user : option string) (capmask : Z) (argv : list string)
| Spawned (argv : list string).

#[global] Instance Command_eq_dec : EqDecision Command.
Proof. solve_decision. Defined.

(** Where a command is first found in a trace, and "issued before". *)
Definition position (c : Command) (trace : list Command) : option nat :=
  fst <$> list_find (λ c', c' = c) trace.

Definition issued_before (a b : Command) (trace : list Command) : Prop :=
  match position a trace, position b trace with
  | Some i, Some j => i < j
  | _, _ => False
  end.

(** The collaborators the file is compiled and run against: the build
    flavour ([__ANDROID__]), [Minijail::RunSyncAndDestroy] (did it run, and
    the exit status) and [ProcessImpl::Run] (the exit status). *)
Class Host := {
  android : bool;
  World : Type;
  RunSyncAndDestroy :
    option string -> Z -> list string -> World -> bool * Z * World;
  ProcessRun : list string -> World -> Z * World
}.

(** The [std::set<Hole>* holes] argument of [PunchHole] and [PlugHole]: the
    callers pass [&tcp_holes_] or [&udp_holes_]. *)
Inductive HolesRef := TcpHoles | UdpHoles.

#[global] Instance HolesRef_eq_dec : EqDecision HolesRef.
Proof. solve_decision. Defined.

(** [operator<=] of [std::pair<uint16_t, std::string>]: the order in which a
    [std::set<Hole>] is iterated. *)
Definition hole_leb (a b : Hole) : bool :=
  (a.1 <? b.1)%N || ((a.1 =? b.1)%N && String.leb a.2 b.2).

Definition hole_le (a b : Hole) : Prop := hole_leb a b = true.

#[global] Instance hole_le_dec : RelDecision hole_le.
Proof. intros a b. unfold hole_le. apply _. Defined.

(** The elements of a hole set in iteration order. *)
Definition in_order (hs : gset Hole) : list Hole :=
  merge_sort hole_le (elements hs).

(** The fields of [class IpTables]. *)
Record IpTables := {
  tcp_holes_ : gset Hole;
  udp_holes_ : gset Hole;
  ip6_enabled_ : bool
}.

Section Model.
Context {host : Host}.

(** The object, the world outside it, and the commands issued so far. *)
Record State := {
  self : IpTables;
  world : World;
  issued : list Command
}.

(** ** Methods are state transformers *)

Definition M (A : Type) : Type := State -> A * State.

Definition ret {A} (a : A) : M A := fun st => (a, st).

Definition bind {A B} (m : M A) (k : A -> M B) : M B :=
  fun st => let '(a, st') := m st in k a st'.

Local Notation "x <- m ;; k" := (bind m (fun x => k))
  (at level 100, m at next level, right associativity).
Local Notation "m ;;; k" := (bind m (fun _ => k))
  (at level 100, right associativity).

Definition holes_of (p : HolesRef) (t : IpTables) : gset Hole :=
  match p with
  | TcpHoles => tcp_holes_ t
  | UdpHoles => udp_holes_ t
  end.

Definition with_holes (p : HolesRef) (hs : gset Hole) (t : IpTables)
  : IpTables :=
  match p with
  | TcpHoles =>
      {| tcp_holes_ := hs; udp_holes_ := udp_holes_ t;
         ip6_enabled_ := ip6_enabled_ t |}
  | UdpHoles =>
      {| tcp_holes_ := tcp_holes_ t; udp_holes_ := hs;
         ip6_enabled_ := ip6_enabled_ t |}
  end.

Definition with_ip6 (b : bool) (t : IpTables) : IpTables :=
  {| tcp_holes_ := tcp_holes_ t; udp_holes_ := udp_holes_ t;
     ip6_enabled_ := b |}.

Definition on_self (f : IpTables -> IpTables) (st : State) : State :=
  {| self := f (self st); world := world st; issued := issued st |}.

(** [holes->find(hole) != holes->end()]. *)
Definition find_hole (p : HolesRef) (h : Hole) : M bool :=
  fun st => (bool_decide (h ∈ holes_of p (self st)), st).

(** [holes->insert(hole)]. *)
Definition insert_hole (p : HolesRef) (h : Hole) : M unit :=
  fun st => (tt, on_self (fun t => with_holes p ({[h]} ∪ holes_of p t) t) st).

(** [holes->erase(hole)]. *)
Definition erase_hole (p : HolesRef) (h : Hole) : M unit :=
  fun st => (tt, on_self (fun t => with_holes p (holes_of p t ∖ {[h]}) t) st).

Definition get_ip6_enabled : M bool :=
  fun st => (ip6_enabled_ (self st), st).

Definition set_ip6_enabled (b : bool) : M unit :=
  fun st => (tt, on_self (with_ip6 b) st).

(** ** Constants of the anonymous namespace *)

Definition kIpTablesPath : string :=
  if android then "/system/bin/iptables" else "/sbin/iptables".
Definition kIp6TablesPath : string :=
  if android then "/system/bin/ip6tables" else "/sbin/ip6tables".
Definition kIpPath : string :=
  if android then "/system/bin/ip" else "/bin/ip".
Definition kUnprivilegedUser : string := "nobody".

(** <linux/capability.h>: [CAP_TO_MASK(x) = 1 << (x & 31)]. *)
Definition CAP_NET_ADMIN : Z := 12.
Definition CAP_NET_RAW : Z := 13.
Definition CAP_TO_MASK (x : Z) : Z := Z.shiftl 1 (Z.land x 31).

Definition kIpTablesCapMask : Z :=
  Z.lor (CAP_TO_MASK CAP_NET_ADMIN) (CAP_TO_MASK CAP_NET_RAW).

Definition kInterfaceNameSize : nat := 16.
Definition kMarkForUserTraffic : string := "1".
Definition kTableIdForUserTraffic : string := "1".

(** ** Interface names *)

(** [std::isalnum] in the "C" locale, the only one the daemon runs in. *)
Definition isalnum (c : ascii) : bool :=
  let n := N_of_ascii c in
  ((48 <=? n) && (n <=? 57) || (65 <=? n) && (n <=? 90)
   || (97 <=? n) && (n <=? 122))%N.

(** [base::StartsWith(str, search_for, SENSITIVE)]. *)
Definition StartsWith (str search_for : string) : bool :=
  String.prefix search_for str.

(** [base::EndsWith(str, search_for, SENSITIVE)]: compares the last
    [search_for.size()] characters of [str]. *)
Definition EndsWith (str search_for : string) : bool :=
  let n := String.length str in
  let k := String.length search_for in
  if (n <? k)%nat then false
  else String.eqb (String.substring (n - k) k str) search_for.

Definition IsValidInterfaceName (iface : string) : bool :=
  if (kInterfaceNameSize <=? String.length iface)%nat then false
  else if StartsWith iface "-" || EndsWith iface "-"
          || StartsWith iface "." || EndsWith iface "."
  then false
  else forallb
         (fun c => negb (negb (isalnum c)
                         && negb (Ascii.eqb c "-"%char)
                         && negb (Ascii.eqb c "."%char)))
         (String.list_ascii_of_string iface).

(** ** Running commands *)

Definition record_cmd (c : Command) (w : World) (st : State) : State :=
  {| self := self st; world := w; issued := issued st ++ [c] |}.

(** [std::string::c_str()] read as a C string: the characters before the
    first NUL. *)
Fixpoint c_str (s : string) : string :=
  match s with
  | EmptyString => EmptyString
  | String c s' =>
      if Ascii.eqb c "000"%char then EmptyString else String c (c_str s')
  end.

Definition ExecvNonRoot (argv : list string) (capmask : Z) : M Z :=
  fun st =>
    let user := if android then None else Some kUnprivilegedUser in
    (* args.push_back(const_cast<char*>(arg.c_str())) for each arg *)
    let args := map c_str argv in
    let '(ran, status, w) := RunSyncAndDestroy user capmask args (world st) in
    ((if ran then status else (-1)%Z), record_cmd (Jailed user capmask args) w st).

Definition AddAcceptRule (executable_path : string) (protocol : ProtocolEnum)
    (port : N) (interface : string) : M bool :=
  let argv :=
    [executable_path; "-I"; "INPUT"; "-p";
     match protocol with kProtocolTcp => "tcp" | kProtocolUdp => "udp" end;
     "--dport"; pretty port]
    ++ (if negb (String.length interface =? 0)%nat
        then ["-i"; interface] else [])
    ++ ["-j"; "ACCEPT"; "-w"] in
  status <- ExecvNonRoot argv kIpTablesCapMask ;;
  ret (status =? 0)%Z.

Definition DeleteAcceptRule (executable_path : string) (protocol : ProtocolEnum)
    (port : N) (interface : string) : M bool :=
  let argv :=
    [executable_path; "-D"; "INPUT"; "-p";
     match protocol with kProtocolTcp => "tcp" | kProtocolUdp => "udp" end;
     "--dport"; pretty port]
    ++ (if negb (String.eqb interface "")
        then ["-i"; interface] else [])
    ++ ["-j"; "ACCEPT"; "-w"] in
  status <- ExecvNonRoot argv kIpTablesCapMask ;;
  ret (status =? 0)%Z.

(** ** The accept-rule protocol *)

Definition AddAcceptRules (protocol : ProtocolEnum) (port : N)
    (interface : string) : M bool :=
  ok4 <- AddAcceptRule kIpTablesPath protocol port interface ;;
  if negb ok4 then ret false
  else
    ok6 <- AddAcceptRule kIp6TablesPath protocol port interface ;;
    if ok6 then
      (* This worked, record this fact and insist that it works thereafter. *)
      set_ip6_enabled true ;;; ret true
    else
      enabled <- get_ip6_enabled ;;
      if enabled then
        (* It's supposed to work, fail. *)
        DeleteAcceptRule kIpTablesPath protocol port interface ;;; ret false
      else
        (* It never worked, just ignore it. *)
        ret true.

Definition DeleteAcceptRules (protocol : ProtocolEnum) (port : N)
    (interface : string) : M bool :=
  ip4_success <- DeleteAcceptRule kIpTablesPath protocol port interface ;;
  enabled <- get_ip6_enabled ;;
  ip6_success <- (if negb enabled then ret true
                  else DeleteAcceptRule kIp6TablesPath protocol port interface) ;;
  ret (ip4_success && ip6_success).

(** ** The hole registry *)

Definition PunchHole (port : N) (interface : string) (holes : HolesRef)
    (protocol : ProtocolEnum) : M bool :=
  if (port =? 0)%N then ret false
  else if negb (IsValidInterfaceName interface) then ret false
  else
    let hole := (port, interface) in
    found <- find_hole holes hole ;;
    if found then ret true
    else
      ok <- AddAcceptRules protocol port interface ;;
      if negb ok then ret false
      else insert_hole holes hole ;;; ret true.

Definition PlugHole (port : N) (interface : string) (holes : HolesRef)
    (protocol : ProtocolEnum) : M bool :=
  if (port =? 0)%N then ret false
  else
    let hole := (port, interface) in
    found <- find_hole holes hole ;;
    if negb found then ret false
    else
      ok <- DeleteAcceptRules protocol port interface ;;
      if negb ok then ret false
      else erase_hole holes hole ;;; ret true.

(** [for (auto hole : holes) PlugHole(hole.first, hole.second, ...)]: the
    results are dropped. *)
Fixpoint plug_each (snapshot : list Hole) (holes : HolesRef)
    (protocol : ProtocolEnum) : M unit :=
  match snapshot with
  | [] => ret tt
  | hole :: rest =>
      PlugHole hole.1 hole.2 holes protocol ;;; plug_each rest holes protocol
  end.

(** A [void] method either returns or dies in a [CHECK]. *)
Inductive Outcome :=
| Returned (st : State)
| CheckFailed (message : string) (st : State).

Definition PlugAllHoles (st : State) : Outcome :=
  (* Copy the container so that we can remove elements from the original. *)
  let holes := in_order (tcp_holes_ (self st)) in
  let st1 := (plug_each holes TcpHoles kProtocolTcp st).2 in
  let holes := in_order (udp_holes_ (self st1)) in
  let st2 := (plug_each holes UdpHoles kProtocolUdp st1).2 in
  if negb (size (tcp_holes_ (self st2)) =? 0)%nat
  then CheckFailed "Failed to plug all TCP holes." st2
  else if negb (size (udp_holes_ (self st2)) =? 0)%nat
  then CheckFailed "Failed to plug all UDP holes." st2
  else Returned st2.

(** ** Masquerade, user marks and routing rules *)

Definition ApplyMasquerade (executable_path interface : string) (add : bool)
    : M bool :=
  let argv :=
    [executable_path; "-t"; "nat"; if add then "-A" else "-D";
     "POSTROUTING"; "-o"; interface; "-j"; "MASQUERADE"] in
  status <- ExecvNonRoot argv kIpTablesCapMask ;;
  ret (status =? 0)%Z.

Definition ApplyMarkForUserTraffic (executable_path user_name : string)
    (add : bool) : M bool :=
  let argv :=
    [executable_path; "-t"; "mangle"; if add then "-A" else "-D";
     "OUTPUT"; "-m"; "owner"; "--uid-owner"; user_name;
     "-j"; "MARK"; "--set-mark"; kMarkForUserTraffic] in
  status <- ExecvNonRoot argv kIpTablesCapMask ;;
  ret (status =? 0)%Z.

Definition ApplyRuleForUserTraffic (ip_version : IPVersionEnum) (add : bool)
    : M bool :=
  let args :=
    [kIpPath]
    ++ (match ip_version with kIPv6 => ["-6"] | kIPv4 => [] end)
    ++ ["rule"; if add then "add" else "delete"; "fwmark";
        kMarkForUserTraffic; "table"; kTableIdForUserTraffic] in
  fun st =>
    let '(status, w) := ProcessRun args (world st) in
    ((status =? 0)%Z, record_cmd (Spawned args) w st).

Definition ApplyMasquerade46 (interface : string) (add : bool) : M bool :=
  let return_value := true in
  ok4 <- ApplyMasquerade kIpTablesPath interface add ;;
  if negb ok4 && add then ret false
  else
    let return_value := if negb ok4 then false else return_value in
    ok6 <- ApplyMasquerade kIp6TablesPath interface add ;;
    let return_value := if negb ok6 then false else return_value in
    ret return_value.

Definition ApplyMarkForUserTraffic46 (username : string) (add : bool)
    : M bool :=
  let return_value := true in
  ok4 <- ApplyMarkForUserTraffic kIpTablesPath username add ;;
  if negb ok4 && add then ret false
  else
    let return_value := if negb ok4 then false else return_value in
    ok6 <- ApplyMarkForUserTraffic kIp6TablesPath username add ;;
    let return_value := if negb ok6 then false else return_value in
    ret return_value.

(** ** VPN setup *)

(** [ApplyVpnSetup] calls itself to roll back; [self_call] stands for that
    call.  First the loop over [usernames], with its two locals. *)
Fixpoint mark_each (self_call : list string -> string -> bool -> M bool)
    (interface : string) (add : bool) (usernames : list string)
    (added_usernames : list string) (return_value : bool) : M bool :=
  match usernames with
  | [] => ret return_value
  | username :: rest =>
      ok <- ApplyMarkForUserTraffic46 username add ;;
      if negb ok && add then
        self_call added_usernames interface false ;;; ret false
      else
        let return_value := if negb ok then false else return_value in
        let added_usernames :=
          if add then added_usernames ++ [username] else added_usernames in
        mark_each self_call interface add rest added_usernames return_value
  end.

Definition ApplyVpnSetup_body
    (self_call : list string -> string -> bool -> M bool)
    (usernames : list string) (interface : string) (add : bool) : M bool :=
  let return_value := true in
  let added_usernames : list string := [] in
  ok <- ApplyRuleForUserTraffic kIPv4 add ;;
  if negb ok && add then ret false
  else
    let return_value := if negb ok then false else return_value in
    ok <- ApplyRuleForUserTraffic kIPv6 add ;;
    if negb ok && add then
      self_call added_usernames interface false ;;; ret false
    else
      let return_value := if negb ok then false else return_value in
      ok <- ApplyMasquerade46 interface add ;;
      if negb ok && add then
        self_call added_usernames interface false ;;; ret false
      else
        let return_value := if negb ok then false else return_value in
        mark_each self_call interface add usernames added_usernames
                  return_value.

(** The recursion is two deep: a call with [add = false] never calls itself
    ([ApplyVpnSetup_removal_closed] below), so the innermost [self_call] is
    never run; [ApplyVpnSetup_unfold] is the method's recursive equation. *)
Definition ApplyVpnSetup (usernames : list string) (interface : string)
    (add : bool) : M bool :=
  ApplyVpnSetup_body
    (ApplyVpnSetup_body (fun _ _ _ => ret false))
    usernames interface add.

(** ** Construction and destruction *)

(** [IpTables::IpTables()]: the body runs on the object as its member
    initialisers (iptables.h) left it, here [members]. *)
Definition IpTables_ctor (members : IpTables) : IpTables :=
  if android then with_ip6 false members else members.

(** [IpTables::~IpTables()]: plug all holes when destructed. *)
Definition IpTables_dtor (st : State) : Outcome := PlugAllHoles st.

(** ** The public methods *)

Definition PunchTcpHole (in_port : N) (in_interface : string) : M bool :=
  PunchHole in_port in_interface TcpHoles kProtocolTcp.
Definition PunchUdpHole (in_port : N) (in_interface : string) : M bool :=
  PunchHole in_port in_interface UdpHoles kProtocolUdp.
Definition PlugTcpHole (in_port : N) (in_interface : string) : M bool :=
  PlugHole in_port in_interface TcpHoles kProtocolTcp.
Definition PlugUdpHole (in_port : N) (in_interface : string) : M bool :=
  PlugHole in_port in_interface UdpHoles kProtocolUdp.
Definition RequestVpnSetup (usernames : list string) (interface : string)
    : M bool :=
  ApplyVpnSetup usernames interface true.
Definition RemoveVpnSetup (usernames : list string) (interface : string)
    : M bool :=
  ApplyVpnSetup usernames interface false.

End Model.

Notation "x <- m ;; k" := (bind m (fun x => k))
  (at level 100, m at next level, right associativity).
Notation "m ;;; k" := (bind m (fun _ => k))
  (at level 100, right associativity).

(** ** Vocabulary of the specification *)

Section Vocabulary.
Context {host : Host}.

(** What the outside world answers to one command: did it succeed (exit
    status 0), and the world afterwards.  A jailed command that could not be
    run counts as status -1. *)
Definition answer (c : Command) (w : World) : bool * World :=
  match c with
  | Jailed user capmask argv =>
      let '(ran, status, w') := RunSyncAndDestroy user capmask argv w in
      (((if ran then status else (-1)%Z) =? 0)%Z, w')
  | Spawned argv =>
      let '(status, w') := ProcessRun argv w in ((status =? 0)%Z, w')
  end.

(** Issue one command: the object is untouched, the command is logged. *)
Definition exec (c : Command) : M bool :=
  fun st => let '(ok, w') := answer c (world st) in (ok, record_cmd c w' st).

(** Issue commands one after the other, whatever each one answers. *)
Fixpoint exec_all (cs : list Command) (st : State) : list bool * State :=
  match cs with
  | [] => ([], st)
  | c :: cs' =>
      let '(ok, st1) := exec c st in
      let '(oks, st2) := exec_all cs' st1 in
      (ok :: oks, st2)
  end.

(** Every filter command runs unprivileged with CAP_NET_ADMIN|CAP_NET_RAW,
    on the arguments as C strings. *)
Definition jailed (argv : list string) : Command :=
  Jailed (if android then None else Some "nobody") 12288 (map c_str argv).

(** The argument vectors of section 6 of the specification. *)
Definition accept_cmd (add : bool) (tool : string) (protocol : ProtocolEnum)
    (port : N) (interface : string) : Command :=
  jailed ([tool; if add then "-I" else "-D"; "INPUT"; "-p";
           match protocol with kProtocolTcp => "tcp" | kProtocolUdp => "udp" end;
           "--dport"; pretty port]
          ++ match interface with
             | EmptyString => []
             | _ => ["-i"; interface]
             end
          ++ ["-j"; "ACCEPT"; "-w"]).

Definition masquerade_cmd (add : bool) (tool interface : string) : Command :=
  jailed [tool; "-t"; "nat"; if add then "-A" else "-D"; "POSTROUTING";
          "-o"; interface; "-j"; "MASQUERADE"].

Definition mark_cmd (add : bool) (tool username : string) : Command :=
  jailed [tool; "-t"; "mangle"; if add then "-A" else "-D"; "OUTPUT";
          "-m"; "owner"; "--uid-owner"; username; "-j"; "MARK";
          "--set-mark"; "1"].

Definition routing_cmd (add : bool) (ip_version : IPVersionEnum) : Command :=
  Spawned ([kIpPath]
           ++ match ip_version with kIPv6 => ["-6"] | kIPv4 => [] end
           ++ ["rule"; if add then "add" else "delete"; "fwmark"; "1";
               "table"; "1"]).

(** The teardown sequence for a set of users, in the order the removal pass
    issues it: routing rules, masquerade, then the users' marks. *)
Definition mark_removals (usernames : list string) : list Command :=
  flat_map (λ u, [mark_cmd false kIpTablesPath u;
                  mark_cmd false kIp6TablesPath u]) usernames.

Definition removal_cmds (usernames : list string) (interface : string)
    : list Command :=
  [routing_cmd false kIPv4; routing_cmd false kIPv6;
   masquerade_cmd false kIpTablesPath interface;
   masquerade_cmd false kIp6TablesPath interface]
  ++ mark_removals usernames.

(** The setup sequence of a fully successful add. *)
Definition setup_cmds (usernames : list string) (interface : string)
    : list Command :=
  [routing_cmd true kIPv4; routing_cmd true kIPv6;
   masquerade_cmd true kIpTablesPath interface;
   masquerade_cmd true kIp6TablesPath interface]
  ++ flat_map (fun u => [mark_cmd true kIpTablesPath u;
                         mark_cmd true kIp6TablesPath u]) usernames.

(** The rollback order the specification words for a failure at the second
    username: the first user's marks, the masquerade rule, both routing
    rules. *)
Definition rollback_as_specified (username interface : string)
    : list Command :=
  [mark_cmd false kIpTablesPath username;
   mark_cmd false kIp6TablesPath username;
   masquerade_cmd false kIpTablesPath interface;
   masquerade_cmd false kIp6TablesPath interface;
   routing_cmd false kIPv4; routing_cmd false kIPv6].

(** The rollback the specification words for a failure of the IPv6 routing
    rule: step 1 only. *)
Definition rollback_of_step_one : list Command := [routing_cmd false kIPv4].

(** Interface-name validity in the specification's words. *)
Definition first_char (s : string) : option ascii :=
  match s with
  | EmptyString => None
  | String c _ => Some c
  end.

Fixpoint last_char (s : string) : option ascii :=
  match s with
  | EmptyString => None
  | String c EmptyString => Some c
  | String _ s' => last_char s'
  end.

Definition hyphen_or_period (c : ascii) : Prop := c = "-"%char ∨ c = "."%char.

Definition valid_interface_name (iface : string) : Prop :=
  String.length iface < 16
  ∧ Forall (fun c => isalnum c = true ∨ hyphen_or_period c)
           (String.list_ascii_of_string iface)
  ∧ (∀ c, first_char iface = Some c → ¬ hyphen_or_period c)
  ∧ (∀ c, last_char iface = Some c → ¬ hyphen_or_period c).

(** The policy of section 4.3 for a primary command [c4] and a secondary
    command [c6], as a relation between the state before and the result. *)
Definition follows_46_policy (c4 c6 : Command) (add : bool) (st : State)
    (r : bool * State) : Prop :=
  let r4 := exec c4 st in
  let r6 := exec c6 r4.2 in
  (if add
   then if r4.1
        then r = (r6.1, r6.2) ∧ issued r.2 = issued st ++ [c4; c6]
        else r = (false, r4.2) ∧ issued r.2 = issued st ++ [c4]
   else r = (r4.1 && r6.1, r6.2) ∧ issued r.2 = issued st ++ [c4; c6])
  ∧ self r.2 = self st.

(** A method that leaves the object's fields alone. *)
Definition keeps_self {A} (m : M A) : Prop := ∀ st, self (m st).2 = self st.

(** The registry only ever holds holes that [PunchHole] accepts. *)
Definition registry_ok (t : IpTables) : Prop :=
  ∀ h, h ∈ tcp_holes_ t ∪ udp_holes_ t →
       h.1 ≠ 0%N ∧ IsValidInterfaceName h.2 = true.

(** During the walk of [snapshot] that starts in [st], the plug of [h]
    fails. *)
Definition plug_fails (snapshot : list Hole) (holes : HolesRef)
    (protocol : ProtocolEnum) (st : State) (h : Hole) : Prop :=
  ∃ pre post,
    snapshot = pre ++ h :: post
    ∧ (PlugHole h.1 h.2 holes protocol
                (plug_each pre holes protocol st).2).1 = false.

(** The state in which [PlugAllHoles] runs its two checks. *)
Definition after_plugging (st : State) : State :=
  let st1 :=
    (plug_each (in_order (tcp_holes_ (self st))) TcpHoles kProtocolTcp st).2 in
  (plug_each (in_order (udp_holes_ (self st1))) UdpHoles kProtocolUdp st1).2.

(** One call of the public interface; [PlugAllHoles] may end the process. *)
Inductive Call :=
| CallPunchTcpHole (port : N) (interface : string)
| CallPunchUdpHole (port : N) (interface : string)
| CallPlugTcpHole (port : N) (interface : string)
| CallPlugUdpHole (port : N) (interface : string)
| CallRequestVpnSetup (usernames : list string) (interface : string)
| CallRemoveVpnSetup (usernames : list string) (interface : string)
| CallPlugAllHoles.

Definition perform (c : Call) (st : State) : option State :=
  match c with
  | CallPunchTcpHole p i => Some (PunchTcpHole p i st).2
  | CallPunchUdpHole p i => Some (PunchUdpHole p i st).2
  | CallPlugTcpHole p i => Some (PlugTcpHole p i st).2
  | CallPlugUdpHole p i => Some (PlugUdpHole p i st).2
  | CallRequestVpnSetup us i => Some (RequestVpnSetup us i st).2
  | CallRemoveVpnSetup us i => Some (RemoveVpnSetup us i st).2
  | CallPlugAllHoles =>
      match PlugAllHoles st with
      | Returned st' => Some st'
      | CheckFailed _ _ => None
      end
  end.

Fixpoint perform_all (cs : list Call) (st : State) : option State :=
  match cs with
  | [] => Some st
  | c :: cs' =>
      match perform c st with
      | Some st' => perform_all cs' st'
      | None => None
      end
  end.

(** The same calls, keeping the state in which the process died when a
    teardown fails its [CHECK]; the calls after it are never made. *)
Definition run_call (c : Call) (st : State) : Outcome :=
  match c with
  | CallPunchTcpHole p i => Returned (PunchTcpHole p i st).2
  | CallPunchUdpHole p i => Returned (PunchUdpHole p i st).2
  | CallPlugTcpHole p i => Returned (PlugTcpHole p i st).2
  | CallPlugUdpHole p i => Returned (PlugUdpHole p i st).2
  | CallRequestVpnSetup us i => Returned (RequestVpnSetup us i st).2
  | CallRemoveVpnSetup us i => Returned (RemoveVpnSetup us i st).2
  | CallPlugAllHoles => PlugAllHoles st
  end.

Fixpoint run_calls (cs : list Call) (st : State) : Outcome :=
  match cs with
  | [] => Returned st
  | c :: cs' =>
      match run_call c st with
      | Returned st' => run_calls cs' st'
      | CheckFailed message st' => CheckFailed message st'
      end
  end.

Definition outcome_state (o : Outcome) : State :=
  match o with
  | Returned st => st
  | CheckFailed _ st => st
  end.

(** The mark commands of a setup, user by user. *)
Definition mark_additions (usernames : list string) : list Command :=
  flat_map (λ u, [mark_cmd true kIpTablesPath u;
                  mark_cmd true kIp6TablesPath u]) usernames.

(** A method only adds commands satisfying [P] to the trace. *)
Definition issues (P : Command → Prop) {A} (m : M A) : Prop :=
  ∀ st, ∃ cs, issued (m st).2 = issued st ++ cs ∧ Forall P cs.

(** A command as this daemon is meant to run them: a filter tool inside
    minijail, unprivileged and with CAP_NET_ADMIN|CAP_NET_RAW only, or the
    [ip] tool started directly. *)
Definition sandboxed (c : Command) : Prop :=
  match c with
  | Jailed user capmask argv =>
      user = (if android then None else Some "nobody")
      ∧ (∀ i, Z.testbit capmask i = true ↔ i = 12%Z ∨ i = 13%Z)
      ∧ ∃ tool args, argv = tool :: args
                     ∧ (tool = kIpTablesPath ∨ tool = kIp6TablesPath)
  | Spawned argv => ∃ args, argv = kIpPath :: args
  end.

(** An accept-rule command for a pair that [PunchHole] would accept. *)
Definition validated_accept (c : Command) : Prop :=
  ∃ add tool protocol port interface,
    c = accept_cmd add tool protocol port interface
    ∧ (tool = kIpTablesPath ∨ tool = kIp6TablesPath)
    ∧ port ≠ 0%N ∧ IsValidInterfaceName interface = true.

(** The calls of the hole interface. *)
Definition hole_call (c : Call) : Prop :=
  match c with
  | CallRequestVpnSetup _ _ | CallRemoveVpnSetup _ _ => False
  | _ => True
  end.

(** Every tracked hole has had its iptables add issued. *)
Definition holes_requested (st : State) : Prop :=
  ∀ h,
    (h ∈ tcp_holes_ (self st) →
     accept_cmd true kIpTablesPath kProtocolTcp h.1 h.2 ∈ issued st)
    ∧ (h ∈ udp_holes_ (self st) →
       accept_cmd true kIpTablesPath kProtocolUdp h.1 h.2 ∈ issued st).

(** The deletes of a teardown pass over a hole set, in iteration order;
    ip6tables takes part when the flag is set. *)
Definition teardown_cmds (protocol : ProtocolEnum) (ip6 : bool)
    (hs : gset Hole) : list Command :=
  flat_map (λ h, accept_cmd false kIpTablesPath protocol h.1 h.2
                 :: (if ip6
                     then [accept_cmd false kIp6TablesPath protocol h.1 h.2]
                     else []))
           (in_order hs).

End Vocabulary.

(** ** Hosts to run the model on *)

(** A host that answers the commands from a script, one exit status per
    command ([None]: minijail could not run it, or the process could not be
    started); once the script is used up every command succeeds. *)
Definition scripted (is_android : bool) : Host := {|
  android := is_android;
  World := list (option Z);
  RunSyncAndDestroy := fun _ _ _ w =>
    match w with
    | [] => (true, 0%Z, [])
    | Some status :: w' => (true, status, w')
    | None :: w' => (false, 0%Z, w')
    end;
  ProcessRun := fun _ w =>
    match w with
    | [] => (0%Z, [])
    | Some status :: w' => (status, w')
    | None :: w' => (127%Z, w')
    end
|}.

(** A host on which minijail cannot run anything (it leaves status 0
    behind), while plain processes run and succeed. *)
Definition jail_down : Host := {|
  android := false;
  World := unit;
  RunSyncAndDestroy := fun _ _ _ w => (false, 0%Z, w);
  ProcessRun := fun _ w => (0%Z, w)
|}.

(** The scripted host of a non-Android build, where the unit tests run. *)
Definition test_host : Host := scripted false.

(** A freshly built object on a scripted host. *)
Definition fresh (is_android ip6 : bool) (script : list (option Z))
    : @State (scripted is_android) :=
  @Build_State (scripted is_android)
    {| tcp_holes_ := ∅; udp_holes_ := ∅; ip6_enabled_ := ip6 |} script [].

(** * Properties *)

Section Properties.
Context {host : Host}.

Implicit Types (st : State) (c : Command) (h : Hole) (t : IpTables).

(** ** One command at a time *)

Lemma exec_self c st : self (exec c st).2 = self st.
Proof. unfold exec. by destruct (answer c (world st)). Qed.

Lemma exec_issued c st : issued (exec c st).2 = issued st ++ [c].
Proof. unfold exec. by destruct (answer c (world st)). Qed.

Lemma exec_on_self (f : IpTables → IpTables) c st :
  exec c (on_self f st) = ((exec c st).1, on_self f (exec c st).2).
Proof. unfold exec; simpl. by destruct (answer c (world st)). Qed.

Lemma exec_all_self cs st : self (exec_all cs st).2 = self st.
Proof.
  revert st. induction cs as [|c cs IH]; intros st; simpl; [done|].
  destruct (exec c st) as [ok st1] eqn:E.
  specialize (IH st1). destruct (exec_all cs st1) as [oks st2]; simpl in *.
  rewrite IH. change st1 with (ok, st1).2. rewrite <- E. apply exec_self.
Qed.

Lemma exec_all_issued cs st : issued (exec_all cs st).2 = issued st ++ cs.
Proof.
  revert st. induction cs as [|c cs IH]; intros st; simpl.
  - by rewrite app_nil_r.
  - destruct (exec c st) as [ok st1] eqn:E.
    specialize (IH st1). destruct (exec_all cs st1) as [oks st2]; simpl in *.
    rewrite IH. change st1 with (ok, st1).2. rewrite <- E, exec_issued.
    by rewrite <- app_assoc.
Qed.

(** ** The primitive rules are single commands, with the argument vectors
    of the specification *)

Lemma ExecvNonRoot_exec argv st :
  (let r := ExecvNonRoot argv kIpTablesCapMask st in ((r.1 =? 0)%Z, r.2))
  = exec (jailed argv) st.
Proof.
  unfold ExecvNonRoot, exec, jailed, answer, kUnprivilegedUser.
  change kIpTablesCapMask with 12288%Z.
  by destruct (RunSyncAndDestroy _ _ _ _) as [[ran status] w].
Qed.

Lemma jailed_rule argv st :
  (status <- ExecvNonRoot argv kIpTablesCapMask ;; ret (status =? 0)%Z) st
  = exec (jailed argv) st.
Proof.
  rewrite <- ExecvNonRoot_exec. unfold bind, ret.
  by destruct (ExecvNonRoot argv kIpTablesCapMask st).
Qed.

Lemma AddAcceptRule_exec tool protocol port interface st :
  AddAcceptRule tool protocol port interface st
  = exec (accept_cmd true tool protocol port interface) st.
Proof.
  unfold AddAcceptRule, accept_cmd. rewrite jailed_rule. by destruct interface.
Qed.

Lemma DeleteAcceptRule_exec tool protocol port interface st :
  DeleteAcceptRule tool protocol port interface st
  = exec (accept_cmd false tool protocol port interface) st.
Proof.
  unfold DeleteAcceptRule, accept_cmd. rewrite jailed_rule. by destruct interface.
Qed.

Lemma ApplyMasquerade_exec tool interface add st :
  ApplyMasquerade tool interface add st
  = exec (masquerade_cmd add tool interface) st.
Proof. unfold ApplyMasquerade, masquerade_cmd. by rewrite jailed_rule. Qed.

Lemma ApplyMarkForUserTraffic_exec tool username add st :
  ApplyMarkForUserTraffic tool username add st
  = exec (mark_cmd add tool username) st.
Proof. unfold ApplyMarkForUserTraffic, mark_cmd. by rewrite jailed_rule. Qed.

Lemma ApplyRuleForUserTraffic_exec ip_version add st :
  ApplyRuleForUserTraffic ip_version add st
  = exec (routing_cmd add ip_version) st.
Proof.
  unfold ApplyRuleForUserTraffic, routing_cmd, exec, answer.
  by destruct (ProcessRun _ _).
Qed.

(** ** The dual-stack operations, command by command *)

Lemma exec_eq_self c st ok st' : exec c st = (ok, st') → self st' = self st.
Proof. intros E. change st' with (ok, st').2. rewrite <- E. apply exec_self. Qed.

Lemma exec_eq_issued c st ok st' :
  exec c st = (ok, st') → issued st' = issued st ++ [c].
Proof. intros E. change st' with (ok, st').2. rewrite <- E. apply exec_issued. Qed.

Lemma AddAcceptRules_unfold protocol port interface st :
  AddAcceptRules protocol port interface st =
  let r4 := exec (accept_cmd true kIpTablesPath protocol port interface) st in
  if r4.1 then
    let r6 :=
      exec (accept_cmd true kIp6TablesPath protocol port interface) r4.2 in
    if r6.1 then (true, on_self (with_ip6 true) r6.2)
    else if ip6_enabled_ (self st)
    then (false,
          (exec (accept_cmd false kIpTablesPath protocol port interface)
                r6.2).2)
    else (true, r6.2)
  else (false, r4.2).
Proof.
  unfold AddAcceptRules, bind, ret, set_ip6_enabled, get_ip6_enabled.
  rewrite AddAcceptRule_exec.
  destruct (exec _ st) as [[] st1] eqn:E4; simpl; [|done].
  rewrite AddAcceptRule_exec.
  destruct (exec _ st1) as [[] st2] eqn:E6; simpl; [done|].
  rewrite (exec_eq_self _ _ _ _ E6), (exec_eq_self _ _ _ _ E4).
  destruct (ip6_enabled_ (self st)); [|done].
  rewrite DeleteAcceptRule_exec. by destruct (exec _ st2).
Qed.

Lemma DeleteAcceptRules_unfold protocol port interface st :
  DeleteAcceptRules protocol port interface st =
  let r4 := exec (accept_cmd false kIpTablesPath protocol port interface) st in
  if ip6_enabled_ (self st) then
    let r6 :=
      exec (accept_cmd false kIp6TablesPath protocol port interface) r4.2 in
    (r4.1 && r6.1, r6.2)
  else (r4.1, r4.2).
Proof.
  unfold DeleteAcceptRules, bind, ret, get_ip6_enabled.
  rewrite DeleteAcceptRule_exec.
  destruct (exec _ st) as [ok4 st1] eqn:E4; simpl.
  rewrite (exec_eq_self _ _ _ _ E4).
  destruct (ip6_enabled_ (self st)); simpl.
  - rewrite DeleteAcceptRule_exec. by destruct (exec _ st1).
  - by rewrite andb_true_r.
Qed.

Lemma ApplyMasquerade46_unfold interface add st :
  ApplyMasquerade46 interface add st =
  let r4 := exec (masquerade_cmd add kIpTablesPath interface) st in
  if negb r4.1 && add then (false, r4.2)
  else
    let r6 := exec (masquerade_cmd add kIp6TablesPath interface) r4.2 in
    (r4.1 && r6.1, r6.2).
Proof.
  unfold ApplyMasquerade46, bind, ret.
  rewrite ApplyMasquerade_exec.
  destruct (exec _ st) as [[] st1]; destruct add; simpl; try done;
    rewrite ApplyMasquerade_exec; by destruct (exec _ st1) as [[] st2].
Qed.

Lemma ApplyMarkForUserTraffic46_unfold username add st :
  ApplyMarkForUserTraffic46 username add st =
  let r4 := exec (mark_cmd add kIpTablesPath username) st in
  if negb r4.1 && add then (false, r4.2)
  else
    let r6 := exec (mark_cmd add kIp6TablesPath username) r4.2 in
    (r4.1 && r6.1, r6.2).
Proof.
  unfold ApplyMarkForUserTraffic46, bind, ret.
  rewrite ApplyMarkForUserTraffic_exec.
  destruct (exec _ st) as [[] st1]; destruct add; simpl; try done;
    rewrite ApplyMarkForUserTraffic_exec; by destruct (exec _ st1) as [[] st2].
Qed.

(** ** What a method does to the object *)

Lemma keeps_self_ret {A} (a : A) : keeps_self (ret a).
Proof. by intros st. Qed.

Lemma keeps_self_bind {A B} (m : M A) (k : A → M B) :
  keeps_self m → (∀ a, keeps_self (k a)) → keeps_self (bind m k).
Proof.
  intros Hm Hk st. unfold bind. specialize (Hm st).
  destruct (m st) as [a st1]; simpl in *. by rewrite Hk.
Qed.

Lemma keeps_self_ext {A} (m m' : M A) :
  (∀ st, m st = m' st) → keeps_self m' → keeps_self m.
Proof. intros E Hm st. rewrite E. apply Hm. Qed.

Lemma holes_of_with_holes holes hs t : holes_of holes (with_holes holes hs t) = hs.
Proof. by destruct holes. Qed.

Lemma holes_of_with_holes_ne holes holes' hs t :
  holes ≠ holes' → holes_of holes' (with_holes holes hs t) = holes_of holes' t.
Proof. by destruct holes, holes'. Qed.

Lemma ip6_enabled_with_holes holes hs t :
  ip6_enabled_ (with_holes holes hs t) = ip6_enabled_ t.
Proof. by destruct holes. Qed.

Lemma AddAcceptRules_self protocol port interface st :
  let st' := (AddAcceptRules protocol port interface st).2 in
  self st' = self st ∨ self st' = with_ip6 true (self st).
Proof.
  rewrite AddAcceptRules_unfold; simpl.
  destruct (exec _ st) as [[] st1] eqn:E4; simpl.
  - destruct (exec _ st1) as [[] st2] eqn:E6; simpl.
    + right. by rewrite (exec_eq_self _ _ _ _ E6), (exec_eq_self _ _ _ _ E4).
    + left. destruct (ip6_enabled_ (self st)); simpl.
      * by rewrite exec_self, (exec_eq_self _ _ _ _ E6),
          (exec_eq_self _ _ _ _ E4).
      * by rewrite (exec_eq_self _ _ _ _ E6), (exec_eq_self _ _ _ _ E4).
  - left. by rewrite (exec_eq_self _ _ _ _ E4).
Qed.

Lemma AddAcceptRules_failed_self protocol port interface st :
  (AddAcceptRules protocol port interface st).1 = false →
  self (AddAcceptRules protocol port interface st).2 = self st.
Proof.
  rewrite AddAcceptRules_unfold; simpl.
  destruct (exec _ st) as [[] st1] eqn:E4; simpl.
  - destruct (exec _ st1) as [[] st2] eqn:E6; simpl; [done|].
    destruct (ip6_enabled_ (self st)); simpl; [|done].
    intros _. by rewrite exec_self, (exec_eq_self _ _ _ _ E6),
      (exec_eq_self _ _ _ _ E4).
  - intros _. by rewrite (exec_eq_self _ _ _ _ E4).
Qed.

Lemma AddAcceptRules_holes protocol port interface holes st :
  holes_of holes (self (AddAcceptRules protocol port interface st).2)
  = holes_of holes (self st).
Proof.
  destruct (AddAcceptRules_self protocol port interface st) as [-> | ->];
    by destruct holes.
Qed.

Lemma DeleteAcceptRules_self protocol port interface :
  keeps_self (DeleteAcceptRules protocol port interface).
Proof.
  intros st. rewrite DeleteAcceptRules_unfold; simpl.
  destruct (ip6_enabled_ (self st)); simpl; by rewrite !exec_self.
Qed.

(** ** The hole registry, call by call *)

Lemma PunchHole_unfold port interface holes protocol st :
  port ≠ 0%N → IsValidInterfaceName interface = true →
  PunchHole port interface holes protocol st =
  if bool_decide ((port, interface) ∈ holes_of holes (self st)) then (true, st)
  else
    let r := AddAcceptRules protocol port interface st in
    if r.1
    then (true,
          on_self (λ t, with_holes holes
                          ({[(port, interface)]} ∪ holes_of holes t) t) r.2)
    else (false, r.2).
Proof.
  intros Hport Hvalid. unfold PunchHole.
  destruct (port =? 0)%N eqn:E; [by apply N.eqb_eq in E|].
  rewrite Hvalid; simpl. unfold bind, ret, find_hole, insert_hole.
  destruct (bool_decide _); [done|].
  by destruct (AddAcceptRules protocol port interface st) as [[] st1].
Qed.

Lemma PlugHole_unfold port interface holes protocol st :
  port ≠ 0%N →
  PlugHole port interface holes protocol st =
  if bool_decide ((port, interface) ∈ holes_of holes (self st)) then
    let r := DeleteAcceptRules protocol port interface st in
    if r.1
    then (true,
          on_self (λ t, with_holes holes
                          (holes_of holes t ∖ {[(port, interface)]}) t) r.2)
    else (false, r.2)
  else (false, st).
Proof.
  intros Hport. unfold PlugHole.
  destruct (port =? 0)%N eqn:E; [by apply N.eqb_eq in E|].
  unfold bind, ret, find_hole, erase_hole.
  destruct (bool_decide _); [|done]. simpl.
  by destruct (DeleteAcceptRules protocol port interface st) as [[] st1].
Qed.

Lemma PlugHole_untracked port interface holes protocol st :
  (port, interface) ∉ holes_of holes (self st) →
  PlugHole port interface holes protocol st = (false, st).
Proof.
  intros Hnot. unfold PlugHole. destruct (port =? 0)%N; [done|].
  unfold bind, ret, find_hole. by rewrite bool_decide_eq_false_2.
Qed.

(** What [PlugHole] does to the two sets and to the flag. *)
Lemma PlugHole_holes port interface holes protocol st :
  let r := PlugHole port interface holes protocol st in
  holes_of holes (self r.2)
  = (if r.1 then holes_of holes (self st) ∖ {[(port, interface)]}
     else holes_of holes (self st))
  ∧ (∀ holes', holes ≠ holes' →
       holes_of holes' (self r.2) = holes_of holes' (self st))
  ∧ ip6_enabled_ (self r.2) = ip6_enabled_ (self st).
Proof.
  destruct (decide (port = 0%N)) as [->|Hport]; [done|].
  rewrite PlugHole_unfold by done.
  case_bool_decide; [|done]. simpl.
  pose proof (DeleteAcceptRules_self protocol port interface st) as Hs.
  destruct (DeleteAcceptRules protocol port interface st) as [[] st1];
    simpl in *; rewrite Hs; [|done].
  split_and!.
  - apply holes_of_with_holes.
  - intros holes' Hne. by apply holes_of_with_holes_ne.
  - apply ip6_enabled_with_holes.
Qed.

Lemma PunchHole_holes port interface holes protocol st :
  let r := PunchHole port interface holes protocol st in
  (holes_of holes (self r.2) = holes_of holes (self st)
   ∨ port ≠ 0%N ∧ IsValidInterfaceName interface = true
     ∧ holes_of holes (self r.2)
       = {[(port, interface)]} ∪ holes_of holes (self st))
  ∧ (∀ holes', holes ≠ holes' →
       holes_of holes' (self r.2) = holes_of holes' (self st))
  ∧ (ip6_enabled_ (self st) = true → ip6_enabled_ (self r.2) = true).
Proof.
  destruct (decide (port = 0%N)) as [->|Hport]; [by split_and!; auto|].
  destruct (IsValidInterfaceName interface) eqn:Hvalid; cycle 1.
  { unfold PunchHole. rewrite Hvalid.
    destruct (port =? 0)%N; simpl; by split_and!; auto. }
  rewrite PunchHole_unfold by done.
  case_bool_decide; [by split_and!; auto|]. simpl.
  pose proof (AddAcceptRules_self protocol port interface st) as Hs.
  pose proof (λ hs, AddAcceptRules_holes protocol port interface hs st) as Hh.
  destruct (AddAcceptRules protocol port interface st) as [[] st1]; simpl in *.
  - split_and!.
    + right. by rewrite holes_of_with_holes, Hh.
    + intros holes' Hne. by rewrite holes_of_with_holes_ne, Hh.
    + intros Hflag. rewrite ip6_enabled_with_holes.
      destruct Hs as [-> | ->]; done.
  - split_and!.
    + left. apply Hh.
    + intros holes' _. apply Hh.
    + intros Hflag. destruct Hs as [-> | ->]; done.
Qed.

(** ** VPN setup: the recursion and the removal pass *)

Lemma exec_all_cons c cs st :
  exec_all (c :: cs) st
  = ((exec c st).1 :: (exec_all cs (exec c st).2).1,
     (exec_all cs (exec c st).2).2).
Proof.
  simpl. destruct (exec c st) as [ok st1]; simpl.
  by destruct (exec_all cs st1).
Qed.

(** A removal never calls itself. *)
Lemma mark_each_removal_closed f g interface usernames added return_value st :
  mark_each f interface false usernames added return_value st
  = mark_each g interface false usernames added return_value st.
Proof.
  revert added return_value st.
  induction usernames as [|u us IH]; intros added rv st; simpl; [done|].
  unfold bind.
  destruct (ApplyMarkForUserTraffic46 u false st) as [ok st1].
  rewrite andb_false_r. apply IH.
Qed.

Lemma ApplyVpnSetup_removal_closed f g usernames interface st :
  ApplyVpnSetup_body f usernames interface false st
  = ApplyVpnSetup_body g usernames interface false st.
Proof.
  unfold ApplyVpnSetup_body, bind.
  destruct (ApplyRuleForUserTraffic kIPv4 false st) as [ok1 st1].
  rewrite andb_false_r.
  destruct (ApplyRuleForUserTraffic kIPv6 false st1) as [ok2 st2].
  rewrite andb_false_r.
  destruct (ApplyMasquerade46 interface false st2) as [ok3 st3].
  rewrite andb_false_r. apply mark_each_removal_closed.
Qed.

(** The body only ever calls itself to remove. *)
Lemma mark_each_ext f g interface add usernames added return_value st :
  (∀ us i st', f us i false st' = g us i false st') →
  mark_each f interface add usernames added return_value st
  = mark_each g interface add usernames added return_value st.
Proof.
  intros Hfg. revert added return_value st.
  induction usernames as [|u us IH]; intros added rv st; simpl; [done|].
  unfold bind.
  destruct (ApplyMarkForUserTraffic46 u add st) as [ok st1].
  destruct (negb ok && add); [by rewrite Hfg|apply IH].
Qed.

Lemma ApplyVpnSetup_body_ext f g usernames interface add st :
  (∀ us i st', f us i false st' = g us i false st') →
  ApplyVpnSetup_body f usernames interface add st
  = ApplyVpnSetup_body g usernames interface add st.
Proof.
  intros Hfg. unfold ApplyVpnSetup_body, bind.
  destruct (ApplyRuleForUserTraffic kIPv4 add st) as [ok1 st1].
  destruct (negb ok1 && add); [done|].
  destruct (ApplyRuleForUserTraffic kIPv6 add st1) as [ok2 st2].
  destruct (negb ok2 && add); [by rewrite Hfg|].
  destruct (ApplyMasquerade46 interface add st2) as [ok3 st3].
  destruct (negb ok3 && add); [by rewrite Hfg|].
  by apply mark_each_ext.
Qed.

(** The method's recursive equation: it is its body, calling itself. *)
Lemma ApplyVpnSetup_unfold usernames interface add st :
  ApplyVpnSetup usernames interface add st
  = ApplyVpnSetup_body ApplyVpnSetup usernames interface add st.
Proof.
  unfold ApplyVpnSetup at 1. apply ApplyVpnSetup_body_ext.
  intros us i st'. unfold ApplyVpnSetup. apply ApplyVpnSetup_removal_closed.
Qed.

Lemma mark_each_removal f interface usernames added return_value st :
  mark_each f interface false usernames added return_value st
  = let r := exec_all (mark_removals usernames) st in
    (return_value && forallb id r.1, r.2).
Proof.
  revert added return_value st.
  induction usernames as [|u us IH]; intros added rv st.
  - simpl. unfold ret. by rewrite andb_true_r.
  - cbn [mark_each mark_removals flat_map app]. unfold bind.
    rewrite ApplyMarkForUserTraffic46_unfold. cbn zeta.
    rewrite andb_false_r. cbn iota. rewrite andb_false_r.
    fold (mark_removals us). rewrite IH. cbn zeta.
    rewrite !exec_all_cons. cbn [fst snd forallb id].
    f_equal.
    destruct (exec _ st).1, (exec _ (exec _ st).2).1, rv; simpl; done.
Qed.

(** Removal issues the whole teardown sequence, whatever fails on the way,
    and answers the conjunction of the outcomes. *)
Lemma ApplyVpnSetup_removal usernames interface st :
  ApplyVpnSetup usernames interface false st
  = let r := exec_all (removal_cmds usernames interface) st in
    (forallb id r.1, r.2).
Proof.
  unfold ApplyVpnSetup, ApplyVpnSetup_body, bind.
  rewrite !ApplyRuleForUserTraffic_exec.
  destruct (exec (routing_cmd false kIPv4) st) as [ok1 st1] eqn:E1.
  rewrite andb_false_r.
  rewrite !ApplyRuleForUserTraffic_exec.
  destruct (exec (routing_cmd false kIPv6) st1) as [ok2 st2] eqn:E2.
  rewrite andb_false_r.
  rewrite ApplyMasquerade46_unfold. cbn zeta.
  rewrite andb_false_r. cbn iota.
  destruct (exec (masquerade_cmd false kIpTablesPath interface) st2)
    as [ok3 st3] eqn:E3.
  destruct (exec (masquerade_cmd false kIp6TablesPath interface) st3)
    as [ok4 st4] eqn:E4.
  cbn [fst snd]. rewrite andb_false_r.
  rewrite mark_each_removal. cbn zeta.
  unfold removal_cmds. cbn [app]. rewrite !exec_all_cons, E1. cbn [fst snd].
  rewrite E2. cbn [fst snd]. rewrite E3. cbn [fst snd]. rewrite E4.
  cbn [fst snd forallb id].
  f_equal. by destruct ok1, ok2, ok3, ok4.
Qed.

Lemma ApplyVpnSetup_self usernames interface add :
  keeps_self (ApplyVpnSetup usernames interface add).
Proof.
  assert (Hrm : ∀ us i, keeps_self (ApplyVpnSetup us i false)).
  { intros us i st. rewrite ApplyVpnSetup_removal. apply exec_all_self. }
  assert (H46 : ∀ u a, keeps_self (ApplyMarkForUserTraffic46 u a)).
  { intros u a st. rewrite ApplyMarkForUserTraffic46_unfold. cbn zeta.
    destruct (negb _ && a); cbn [snd]; by rewrite !exec_self. }
  assert (Hm46 : ∀ a, keeps_self (ApplyMasquerade46 interface a)).
  { intros a st. rewrite ApplyMasquerade46_unfold. cbn zeta.
    destruct (negb _ && a); cbn [snd]; by rewrite !exec_self. }
  assert (Hrule : ∀ v a, keeps_self (ApplyRuleForUserTraffic v a)).
  { intros v a st. rewrite ApplyRuleForUserTraffic_exec. apply exec_self. }
  assert (Hloop : ∀ us added rv,
            keeps_self (mark_each ApplyVpnSetup interface add us added rv)).
  { induction us as [|u us IH]; intros added rv; simpl.
    - apply keeps_self_ret.
    - apply keeps_self_bind; [apply H46|]. intros ok.
      destruct (negb ok && add); [|apply IH].
      apply keeps_self_bind; [apply Hrm|]. intros _. apply keeps_self_ret. }
  eapply keeps_self_ext; [intros st; apply ApplyVpnSetup_unfold|].
  unfold ApplyVpnSetup_body.
  apply keeps_self_bind; [apply Hrule|]. intros ok1.
  destruct (negb ok1 && add); [apply keeps_self_ret|].
  apply keeps_self_bind; [apply Hrule|]. intros ok2.
  destruct (negb ok2 && add).
  { apply keeps_self_bind; [apply Hrm|]. intros _. apply keeps_self_ret. }
  apply keeps_self_bind; [apply Hm46|]. intros ok3.
  destruct (negb ok3 && add).
  { apply keeps_self_bind; [apply Hrm|]. intros _. apply keeps_self_ret. }
  apply Hloop.
Qed.

(** ** Plugging a snapshot *)

Lemma plug_each_cons h snapshot holes protocol st :
  plug_each (h :: snapshot) holes protocol st
  = plug_each snapshot holes protocol (PlugHole h.1 h.2 holes protocol st).2.
Proof.
  simpl. unfold bind. by destruct (PlugHole h.1 h.2 holes protocol st).
Qed.

Lemma plug_each_app pre post holes protocol st :
  plug_each (pre ++ post) holes protocol st
  = plug_each post holes protocol (plug_each pre holes protocol st).2.
Proof.
  revert st. induction pre as [|h pre IH]; intros st; [done|].
  rewrite <- app_comm_cons, !plug_each_cons. apply IH.
Qed.

Lemma plug_each_flag snapshot holes protocol st :
  ip6_enabled_ (self (plug_each snapshot holes protocol st).2)
  = ip6_enabled_ (self st).
Proof.
  revert st. induction snapshot as [|h l IH]; intros st; [done|].
  rewrite plug_each_cons, IH.
  apply (PlugHole_holes h.1 h.2 holes protocol st).
Qed.

Lemma plug_each_other snapshot holes holes' protocol st :
  holes ≠ holes' →
  holes_of holes' (self (plug_each snapshot holes protocol st).2)
  = holes_of holes' (self st).
Proof.
  intros Hne. revert st. induction snapshot as [|h l IH]; intros st; [done|].
  rewrite plug_each_cons, IH.
  by apply (PlugHole_holes h.1 h.2 holes protocol st).
Qed.

(** A hole outside the snapshot is not touched. *)
Lemma plug_each_keeps h snapshot holes protocol st :
  h ∈ holes_of holes (self st) → h ∉ snapshot →
  h ∈ holes_of holes (self (plug_each snapshot holes protocol st).2).
Proof.
  revert st. induction snapshot as [|h' l IH]; intros st Hin Hnot; [done|].
  apply not_elem_of_cons in Hnot as [Hne Hnot].
  rewrite plug_each_cons. apply IH; [|done].
  destruct (PlugHole_holes h'.1 h'.2 holes protocol st) as (E & _ & _).
  rewrite E. destruct (PlugHole _ _ _ _ _).1; [|done].
  destruct h'. set_solver.
Qed.

(** When every plug of the pass succeeds, the whole snapshot is gone. *)
Lemma plug_each_all_plugged snapshot holes protocol st :
  (∀ pre h post, snapshot = pre ++ h :: post →
     (PlugHole h.1 h.2 holes protocol
               (plug_each pre holes protocol st).2).1 = true) →
  holes_of holes (self (plug_each snapshot holes protocol st).2)
  = holes_of holes (self st) ∖ list_to_set snapshot.
Proof.
  revert st. induction snapshot as [|h l IH]; intros st Hall.
  - simpl. set_solver.
  - rewrite plug_each_cons, IH.
    + destruct (PlugHole_holes h.1 h.2 holes protocol st) as (E & _ & _).
      pose proof (Hall [] h l eq_refl) as Hh. simpl in Hh.
      rewrite E, Hh. destruct h. set_solver.
    + intros pre h' post ->.
      specialize (Hall (h :: pre) h' post eq_refl).
      by rewrite plug_each_cons in Hall.
Qed.

Lemma in_order_elem_of (hs : gset Hole) h : h ∈ in_order hs ↔ h ∈ hs.
Proof. unfold in_order. by rewrite merge_sort_Permutation, elem_of_elements. Qed.

Lemma in_order_NoDup (hs : gset Hole) : NoDup (in_order hs).
Proof. unfold in_order. rewrite merge_sort_Permutation. apply NoDup_elements. Qed.

Lemma list_to_set_in_order (hs : gset Hole) : list_to_set (in_order hs) = hs.
Proof.
  apply set_eq. intros h. by rewrite elem_of_list_to_set, in_order_elem_of.
Qed.

Lemma PlugAllHoles_cases st :
  PlugAllHoles st = Returned (after_plugging st)
  ∧ tcp_holes_ (self (after_plugging st)) = ∅
  ∧ udp_holes_ (self (after_plugging st)) = ∅
  ∨ (∃ message, PlugAllHoles st = CheckFailed message (after_plugging st))
    ∧ (tcp_holes_ (self (after_plugging st)) ≠ ∅
       ∨ udp_holes_ (self (after_plugging st)) ≠ ∅).
Proof.
  unfold PlugAllHoles. fold (after_plugging st).
  destruct (size (tcp_holes_ (self (after_plugging st))) =? 0)%nat eqn:Et; simpl.
  - apply Nat.eqb_eq, size_empty_iff in Et. apply leibniz_equiv in Et.
    destruct (size (udp_holes_ (self (after_plugging st))) =? 0)%nat eqn:Eu;
      simpl.
    + apply Nat.eqb_eq, size_empty_iff in Eu. apply leibniz_equiv in Eu. by left.
    + right. split; [by eexists|]. right. intros Hu.
      apply Nat.eqb_neq in Eu. apply Eu. by rewrite Hu.
  - right. split; [by eexists|]. left. intros Ht.
    apply Nat.eqb_neq in Et. apply Et. by rewrite Ht.
Qed.

Lemma after_plugging_flag st :
  ip6_enabled_ (self (after_plugging st)) = ip6_enabled_ (self st).
Proof. unfold after_plugging. by rewrite !plug_each_flag. Qed.

(** ** The capability flag is sticky *)

Lemma perform_sticky call st st' :
  ip6_enabled_ (self st) = true → perform call st = Some st' →
  ip6_enabled_ (self st') = true.
Proof.
  intros Hflag. destruct call; simpl; intros Hst'; simplify_eq.
  - by apply (PunchHole_holes port interface TcpHoles kProtocolTcp st).
  - by apply (PunchHole_holes port interface UdpHoles kProtocolUdp st).
  - destruct (PlugHole_holes port interface TcpHoles kProtocolTcp st)
      as (_ & _ & E). unfold PlugTcpHole. by rewrite E.
  - destruct (PlugHole_holes port interface UdpHoles kProtocolUdp st)
      as (_ & _ & E). unfold PlugUdpHole. by rewrite E.
  - unfold RequestVpnSetup. by rewrite ApplyVpnSetup_self.
  - unfold RemoveVpnSetup. by rewrite ApplyVpnSetup_self.
  - destruct (PlugAllHoles_cases st) as [(E & _) | ([msg E] & _)];
      rewrite E in Hst'; simplify_eq.
    by rewrite after_plugging_flag.
Qed.

Lemma perform_all_sticky calls st st' :
  ip6_enabled_ (self st) = true → perform_all calls st = Some st' →
  ip6_enabled_ (self st') = true.
Proof.
  revert st. induction calls as [|call calls IH]; intros st Hflag; simpl.
  - by intros [= <-].
  - destruct (perform call st) as [st1|] eqn:E; [|done].
    apply IH. by eapply perform_sticky.
Qed.

(** ** The accept-rule protocol (section 4.2) *)

(** C1: [AddAcceptRules] first issues the iptables add and, when that fails,
    fails at once with nothing else issued; when it succeeds the ip6tables
    add is issued: if that succeeds the flag is set and the call succeeds; if
    it fails with the flag set, the iptables rule is deleted again and the
    call fails; if it fails with the flag clear, the call succeeds and the
    flag stays clear.  Over any sequence of public calls a set flag stays
    set. *)
Theorem AddAcceptRules_dual_stack protocol port interface st :
  let add4 := accept_cmd true kIpTablesPath protocol port interface in
  let add6 := accept_cmd true kIp6TablesPath protocol port interface in
  let del4 := accept_cmd false kIpTablesPath protocol port interface in
  let st1 := (exec add4 st).2 in
  let st2 := (exec add6 st1).2 in
  let r := AddAcceptRules protocol port interface st in
  ((exec add4 st).1 = false →
     r = (false, st1) ∧ issued r.2 = issued st ++ [add4]
     ∧ self r.2 = self st)
  ∧ ((exec add4 st).1 = true → (exec add6 st1).1 = true →
     r = (true, on_self (with_ip6 true) st2)
     ∧ issued r.2 = issued st ++ [add4; add6]
     ∧ ip6_enabled_ (self r.2) = true)
  ∧ ((exec add4 st).1 = true → (exec add6 st1).1 = false →
     ip6_enabled_ (self st) = true →
     r = (false, (exec del4 st2).2)
     ∧ issued r.2 = issued st ++ [add4; add6; del4]
     ∧ self r.2 = self st)
  ∧ ((exec add4 st).1 = true → (exec add6 st1).1 = false →
     ip6_enabled_ (self st) = false →
     r = (true, st2)
     ∧ issued r.2 = issued st ++ [add4; add6]
     ∧ ip6_enabled_ (self r.2) = false)
  ∧ (∀ calls st',
       ip6_enabled_ (self st) = true → perform_all calls st = Some st' →
       ip6_enabled_ (self st') = true).
Proof.
  intros add4 add6 del4 st1 st2 r.
  assert (Hr : r = AddAcceptRules protocol port interface st) by done.
  rewrite AddAcceptRules_unfold in Hr. cbn zeta in Hr.
  fold add4 add6 del4 in Hr. fold st1 in Hr. fold st2 in Hr.
  split_and!.
  - intros E4. rewrite E4 in Hr. rewrite Hr. cbn [snd].
    split_and!; [done|apply exec_issued|apply exec_self].
  - intros E4 E6. rewrite E4, E6 in Hr. rewrite Hr. cbn [snd].
    split_and!; [done| |done].
    unfold on_self; simpl. unfold st2, st1.
    by rewrite !exec_issued, <- app_assoc.
  - intros E4 E6 Hflag. rewrite E4, E6, Hflag in Hr. rewrite Hr. cbn [snd].
    split_and!; [done| |].
    + unfold st2, st1. by rewrite !exec_issued, <- !app_assoc.
    + unfold st2, st1. by rewrite !exec_self.
  - intros E4 E6 Hflag. rewrite E4, E6, Hflag in Hr. rewrite Hr. cbn [snd].
    split_and!; [done| |].
    + unfold st2, st1. by rewrite !exec_issued, <- !app_assoc.
    + unfold st2, st1. by rewrite !exec_self.
  - intros calls st'. apply perform_all_sticky.
Qed.

(** C7: [DeleteAcceptRules] always issues the iptables delete; it issues the
    ip6tables delete exactly when the flag is set; the answer is the
    conjunction of the deletes issued. *)
Theorem DeleteAcceptRules_dual_stack protocol port interface st :
  let del4 := accept_cmd false kIpTablesPath protocol port interface in
  let del6 := accept_cmd false kIp6TablesPath protocol port interface in
  let st1 := (exec del4 st).2 in
  let r := DeleteAcceptRules protocol port interface st in
  (if ip6_enabled_ (self st)
   then r = ((exec del4 st).1 && (exec del6 st1).1, (exec del6 st1).2)
        ∧ issued r.2 = issued st ++ [del4; del6]
   else r = ((exec del4 st).1, st1)
        ∧ issued r.2 = issued st ++ [del4])
  ∧ self r.2 = self st.
Proof.
  intros del4 del6 st1 r. split; [|apply DeleteAcceptRules_self].
  unfold r. rewrite DeleteAcceptRules_unfold. cbn zeta.
  fold del4 del6. fold st1.
  destruct (ip6_enabled_ (self st)); cbn [snd]; split; try done.
  - unfold st1. by rewrite !exec_issued, <- app_assoc.
  - apply exec_issued.
Qed.

(** ** Masquerade and user marks (section 4.3) *)

(** C8: [ApplyMasquerade46] and [ApplyMarkForUserTraffic46] follow one
    policy.  Adding: the primary command is issued; when it fails the call
    fails with nothing else issued, otherwise the secondary command is issued
    and the call succeeds exactly when it does.  Removing: both commands are
    issued whatever the first one answers, and the call succeeds exactly when
    both do.  The capability flag plays no part. *)
Theorem masquerade_and_mark_policy interface username add st :
  follows_46_policy (masquerade_cmd add kIpTablesPath interface)
                    (masquerade_cmd add kIp6TablesPath interface) add st
                    (ApplyMasquerade46 interface add st)
  ∧ follows_46_policy (mark_cmd add kIpTablesPath username)
                      (mark_cmd add kIp6TablesPath username) add st
                      (ApplyMarkForUserTraffic46 username add st)
  ∧ (∀ b,
       ApplyMasquerade46 interface add (on_self (with_ip6 b) st)
       = ((ApplyMasquerade46 interface add st).1,
          on_self (with_ip6 b) (ApplyMasquerade46 interface add st).2)
       ∧ ApplyMarkForUserTraffic46 username add (on_self (with_ip6 b) st)
         = ((ApplyMarkForUserTraffic46 username add st).1,
            on_self (with_ip6 b)
                    (ApplyMarkForUserTraffic46 username add st).2)).
Proof.
  assert (Hboth : ∀ c4 c6 r,
    r = (let r4 := exec c4 st in
         if negb r4.1 && add then (false, r4.2)
         else let r6 := exec c6 r4.2 in (r4.1 && r6.1, r6.2)) →
    follows_46_policy c4 c6 add st r).
  { intros c4 c6 r ->. unfold follows_46_policy. cbn zeta.
    destruct add, (exec c4 st).1 eqn:E4; cbn [negb andb snd fst];
      rewrite ?exec_issued, ?exec_self, <- ?app_assoc; done. }
  split_and!.
  - apply Hboth, ApplyMasquerade46_unfold.
  - apply Hboth, ApplyMarkForUserTraffic46_unfold.
  - intros b. rewrite !ApplyMasquerade46_unfold,
      !ApplyMarkForUserTraffic46_unfold. cbn zeta.
    rewrite !exec_on_self. cbn [fst snd].
    split.
    + destruct (negb _ && add); [done|]. by rewrite exec_on_self.
    + destruct (negb _ && add); [done|]. by rewrite exec_on_self.
Qed.

(** ** Interface names *)

Lemma StartsWith_char s (c : ascii) :
  StartsWith s (String c "") = true ↔ first_char s = Some c.
Proof.
  unfold StartsWith. destruct s as [|b s]; simpl; [done|].
  destruct (ascii_dec c b) as [->|Hne].
  - by destruct s.
  - split; [done|]. intros [= ->]. done.
Qed.

Lemma substring_last s :
  String.substring (String.length s - 1) 1 s
  = match last_char s with Some c => String c "" | None => "" end.
Proof.
  induction s as [|b s IH]; [done|].
  destruct s as [|b' s]; [done|].
  change (String.length (String b (String b' s)) - 1)
    with (S (String.length s)).
  cbn [String.substring last_char].
  replace (String.length s) with (String.length (String b' s) - 1)
    by (simpl; lia).
  apply IH.
Qed.

Lemma EndsWith_char s (c : ascii) :
  EndsWith s (String c "") = true ↔ last_char s = Some c.
Proof.
  unfold EndsWith. cbn [String.length].
  destruct s as [|b s]; [done|].
  replace (String.length (String b s) <? 1)%nat with false
    by (symmetry; apply Nat.ltb_ge; simpl; lia).
  rewrite substring_last, String.eqb_eq.
  destruct (last_char (String b s)) as [c'|] eqn:E.
  - split; congruence.
  - split; [done|]. by destruct s.
Qed.

Lemma allowed_char_spec (c : ascii) :
  negb (negb (isalnum c) && negb (Ascii.eqb c "-")
        && negb (Ascii.eqb c ".")) = true
  ↔ isalnum c = true ∨ hyphen_or_period c.
Proof.
  unfold hyphen_or_period.
  destruct (isalnum c); simpl; [tauto|].
  destruct (Ascii.eqb_spec c "-"%char) as [->|H1]; simpl; [tauto|].
  destruct (Ascii.eqb_spec c "."%char) as [->|H2]; simpl; [tauto|].
  split; [done|]. intros [?|[?|?]]; done.
Qed.

Lemma IsValidInterfaceName_spec iface :
  IsValidInterfaceName iface = true ↔ valid_interface_name iface.
Proof.
  unfold IsValidInterfaceName, valid_interface_name, kInterfaceNameSize.
  destruct (16 <=? String.length iface)%nat eqn:Elen.
  { apply Nat.leb_le in Elen. split; [done|]. intros [? _]. lia. }
  apply Nat.leb_gt in Elen.
  pose proof (StartsWith_char iface "-") as Hs1.
  pose proof (EndsWith_char iface "-") as He1.
  pose proof (StartsWith_char iface ".") as Hs2.
  pose proof (EndsWith_char iface ".") as He2.
  destruct (StartsWith iface "-") eqn:S1; simpl.
  { split; [done|]. intros (_ & _ & Hf & _).
    destruct (Hf "-"%char); [by apply Hs1|by left]. }
  destruct (EndsWith iface "-") eqn:E1; simpl.
  { split; [done|]. intros (_ & _ & _ & Hl).
    destruct (Hl "-"%char); [by apply He1|by left]. }
  destruct (StartsWith iface ".") eqn:S2; simpl.
  { split; [done|]. intros (_ & _ & Hf & _).
    destruct (Hf "."%char); [by apply Hs2|by right]. }
  destruct (EndsWith iface ".") eqn:E2; simpl.
  { split; [done|]. intros (_ & _ & _ & Hl).
    destruct (Hl "."%char); [by apply He2|by right]. }
  rewrite forallb_forall, Forall_forall.
  split.
  - intros Hall. split_and!; [done| | |].
    + intros a Ha. apply allowed_char_spec, Hall. by apply list_elem_of_In.
    + intros a Ha [-> | ->]; [by apply Hs1 in Ha|by apply Hs2 in Ha].
    + intros a Ha [-> | ->]; [by apply He1 in Ha|by apply He2 in Ha].
  - intros (_ & Hall & _) a Ha. apply allowed_char_spec, Hall.
    by apply list_elem_of_In.
Qed.

(** ** The registry invariant *)

Lemma registry_ok_holes t :
  registry_ok t ↔
  ∀ holes h, h ∈ holes_of holes t →
             h.1 ≠ 0%N ∧ IsValidInterfaceName h.2 = true.
Proof.
  unfold registry_ok. split.
  - intros Hok holes h Hin. apply Hok. destruct holes; set_solver.
  - intros Hok h [Hin|Hin]%elem_of_union.
    + by apply (Hok TcpHoles).
    + by apply (Hok UdpHoles).
Qed.

Lemma PunchHole_registry_ok port interface holes protocol st :
  registry_ok (self st) →
  registry_ok (self (PunchHole port interface holes protocol st).2).
Proof.
  rewrite !registry_ok_holes. intros Hok holes' h.
  destruct (PunchHole_holes port interface holes protocol st)
    as (Hsame & Hother & _).
  destruct (decide (holes = holes')) as [<-|Hne].
  - destruct Hsame as [-> | (Hport & Hvalid & ->)]; [apply Hok|].
    intros [->%elem_of_singleton|Hin]%elem_of_union;
      [done|by apply (Hok holes)].
  - rewrite Hother by done. apply Hok.
Qed.

Lemma PlugHole_registry_ok port interface holes protocol st :
  registry_ok (self st) →
  registry_ok (self (PlugHole port interface holes protocol st).2).
Proof.
  rewrite !registry_ok_holes. intros Hok holes' h.
  destruct (PlugHole_holes port interface holes protocol st)
    as (Hsame & Hother & _).
  destruct (decide (holes = holes')) as [<-|Hne].
  - rewrite Hsame. destruct (PlugHole _ _ _ _ _).1; [|apply Hok].
    intros [Hin _]%elem_of_difference. by apply (Hok holes).
  - rewrite Hother by done. apply Hok.
Qed.

Lemma perform_registry_ok call st st' :
  registry_ok (self st) → perform call st = Some st' → registry_ok (self st').
Proof.
  intros Hok. destruct call; simpl; intros Hst'; simplify_eq.
  - by apply PunchHole_registry_ok.
  - by apply PunchHole_registry_ok.
  - by apply PlugHole_registry_ok.
  - by apply PlugHole_registry_ok.
  - unfold RequestVpnSetup. by rewrite ApplyVpnSetup_self.
  - unfold RemoveVpnSetup. by rewrite ApplyVpnSetup_self.
  - destruct (PlugAllHoles_cases st) as [(E & Et & Eu) | ([msg E] & _)];
      rewrite E in Hst'; simplify_eq.
    intros h. rewrite Et, Eu. set_solver.
Qed.

(** Every state the public interface can reach from an empty registry has a
    well-formed registry. *)
Lemma reachable_registry_ok calls st st' :
  tcp_holes_ (self st) = ∅ → udp_holes_ (self st) = ∅ →
  perform_all calls st = Some st' → registry_ok (self st').
Proof.
  intros Et Eu.
  assert (Hok : registry_ok (self st)).
  { intros h. rewrite Et, Eu. set_solver. }
  clear Et Eu. revert st Hok.
  induction calls as [|call calls IH]; intros st Hok; simpl.
  - by intros [= <-].
  - destruct (perform call st) as [st1|] eqn:E; [|done].
    apply IH. by eapply perform_registry_ok.
Qed.

(** ** The hole registry (section 4.1) *)

Lemma AddAcceptRules_succeeded_issued protocol port interface st :
  (AddAcceptRules protocol port interface st).1 = true →
  issued (AddAcceptRules protocol port interface st).2
  = issued st ++ [accept_cmd true kIpTablesPath protocol port interface;
                  accept_cmd true kIp6TablesPath protocol port interface].
Proof.
  rewrite AddAcceptRules_unfold. cbn zeta.
  destruct (exec _ st).1; [|done].
  destruct (exec _ (exec _ st).2).1; cbn [fst snd].
  - intros _. unfold on_self; simpl. by rewrite !exec_issued, <- app_assoc.
  - destruct (ip6_enabled_ (self st)); [done|]. cbn [fst snd].
    intros _. by rewrite !exec_issued, <- app_assoc.
Qed.

(** C6: [PunchHole] turns down port 0 and every malformed interface name
    with the state, and so the trace of commands, untouched.  A name is
    well-formed exactly when it is shorter than 16 characters, made of
    alphanumerics, hyphens and periods, and neither starts nor ends with a
    hyphen or a period; the seven malformed names of the specification are
    refused and its three well-formed ones pass. *)
Theorem PunchHole_validates port interface holes protocol st :
  (IsValidInterfaceName interface = true ↔ valid_interface_name interface)
  ∧ (port = 0%N ∨ ¬ valid_interface_name interface →
     PunchHole port interface holes protocol st = (false, st))
  ∧ Forall (λ name, IsValidInterfaceName name = false)
           ["reallylonginterfacename"; "with spaces"; "with$ymbols";
            "-startdash"; "enddash-"; ".startdot"; "enddot."]
  ∧ Forall (λ name, IsValidInterfaceName name = true)
           ["shortname"; "middle-dash"; "middle.dot"].
Proof.
  split_and!.
  - apply IsValidInterfaceName_spec.
  - intros [-> | Hbad]; [done|].
    unfold PunchHole. destruct (port =? 0)%N; [done|].
    destruct (IsValidInterfaceName interface) eqn:E; [|done].
    by apply IsValidInterfaceName_spec in E.
  - repeat constructor.
  - repeat constructor.
Qed.

(** C4: for a non-zero port and a well-formed interface name, a successful
    [PunchHole] leaves the pair tracked, and the same call again succeeds
    with the state and the trace untouched, so that both calls together
    issue the add commands at most once; a tracked pair is punched without
    any command and without any change; and when [AddAcceptRules] fails the
    call fails and the object is as before. *)
Theorem PunchHole_idempotent port interface holes protocol st :
  port ≠ 0%N → IsValidInterfaceName interface = true →
  let hole := (port, interface) in
  let r1 := PunchHole port interface holes protocol st in
  let r2 := PunchHole port interface holes protocol r1.2 in
  (r1.1 = true →
     r2 = (true, r1.2) ∧ hole ∈ holes_of holes (self r1.2)
     ∧ issued r2.2
       = issued st
         ++ (if bool_decide (hole ∈ holes_of holes (self st)) then []
             else [accept_cmd true kIpTablesPath protocol port interface;
                   accept_cmd true kIp6TablesPath protocol port interface]))
  ∧ (hole ∈ holes_of holes (self st) → r1 = (true, st))
  ∧ (hole ∉ holes_of holes (self st) →
     (AddAcceptRules protocol port interface st).1 = false →
     r1 = (false, (AddAcceptRules protocol port interface st).2)
     ∧ self r1.2 = self st).
Proof.
  intros Hport Hvalid hole r1 r2.
  assert (Hr1 : r1 = PunchHole port interface holes protocol st) by done.
  rewrite PunchHole_unfold in Hr1 by done. cbn zeta in Hr1. fold hole in Hr1.
  assert (Htracked : ∀ st', hole ∈ holes_of holes (self st') →
            PunchHole port interface holes protocol st' = (true, st')).
  { intros st' Hin. rewrite PunchHole_unfold by done.
    by rewrite bool_decide_eq_true_2. }
  split_and!.
  - intros Hok.
    assert (Hin : hole ∈ holes_of holes (self r1.2)).
    { rewrite Hr1 in Hok |- *. case_bool_decide as Hd; [done|].
      destruct (AddAcceptRules protocol port interface st).1; [|done].
      cbn [snd]. unfold on_self; cbn [self].
      rewrite holes_of_with_holes. set_solver. }
    unfold r2. rewrite (Htracked _ Hin). split_and!; [done..|].
    cbn [snd]. rewrite Hr1 in Hok |- *.
    case_bool_decide as Hd; [by rewrite app_nil_r|].
    destruct (AddAcceptRules protocol port interface st).1 eqn:Ea; [|done].
    cbn [snd]. unfold on_self; cbn [issued].
    by apply AddAcceptRules_succeeded_issued.
  - intros Hin. by apply Htracked.
  - intros Hnot Hfail. rewrite Hr1.
    rewrite bool_decide_eq_false_2, Hfail by done. cbn [snd].
    split; [done|]. by apply AddAcceptRules_failed_self.
Qed.

(** C5: [PlugHole] on an untracked pair fails with the state and the trace
    untouched; so after a punch and a plug of (80, "iface"), and after any
    successful plug, plugging again fails.  On a tracked pair the accept
    rules are deleted: when that fails the call fails and the pair stays
    tracked, when it succeeds the pair is dropped and the call succeeds.
    Deleting means running the iptables delete command of the pair and, when
    the flag is set, its ip6tables delete command, and nothing else; the
    call succeeds exactly when every delete it ran succeeded. *)
Theorem PlugHole_not_idempotent port interface holes protocol st :
  let hole := (port, interface) in
  let r := PlugHole port interface holes protocol st in
  (hole ∉ holes_of holes (self st) → r = (false, st))
  ∧ (∀ st1 st2,
       PunchHole 80 "iface" holes protocol st = (true, st1) →
       PlugHole 80 "iface" holes protocol st1 = (true, st2) →
       PlugHole 80 "iface" holes protocol st2 = (false, st2))
  ∧ (r.1 = true → PlugHole port interface holes protocol r.2 = (false, r.2))
  ∧ (registry_ok (self st) → hole ∈ holes_of holes (self st) →
     let d := DeleteAcceptRules protocol port interface st in
     if d.1
     then r = (true,
               on_self (λ t, with_holes holes (holes_of holes t ∖ {[hole]}) t)
                       d.2)
          ∧ hole ∉ holes_of holes (self r.2)
     else r = (false, d.2) ∧ hole ∈ holes_of holes (self r.2))
  ∧ (registry_ok (self st) → hole ∈ holes_of holes (self st) →
     let del4 := accept_cmd false kIpTablesPath protocol port interface in
     let del6 := accept_cmd false kIp6TablesPath protocol port interface in
     let required := ip6_enabled_ (self st) in
     let r4 := exec del4 st in
     let r6 := exec del6 r4.2 in
     issued r.2 = issued st ++ del4 :: (if required then [del6] else [])
     ∧ world r.2 = world (if required then r6.2 else r4.2)
     ∧ r.1 = r4.1 && (negb required || r6.1)
     ∧ self r.2
       = (if r.1
          then with_holes holes (holes_of holes (self st) ∖ {[hole]}) (self st)
          else self st)).
Proof.
  intros hole r.
  assert (Hagain : ∀ p i st' st'',
            PlugHole p i holes protocol st' = (true, st'') →
            PlugHole p i holes protocol st'' = (false, st'')).
  { intros p i st' st'' E. apply PlugHole_untracked.
    destruct (PlugHole_holes p i holes protocol st') as (Hh & _ & _).
    rewrite E in Hh. cbn [fst snd] in Hh. rewrite Hh. set_solver. }
  split_and!.
  - apply PlugHole_untracked.
  - intros st1 st2 _. apply Hagain.
  - intros Hok. apply (Hagain _ _ st). unfold r in *.
    destruct (PlugHole port interface holes protocol st) as [ok st1].
    simpl in Hok. by subst.
  - intros Hreg Hin. cbn zeta.
    apply registry_ok_holes with (holes := holes) (h := hole) in Hreg as [Hport _];
      [|done].
    unfold r. rewrite PlugHole_unfold by done.
    rewrite bool_decide_eq_true_2 by done. cbn zeta. fold hole.
    pose proof (DeleteAcceptRules_self protocol port interface st) as Hs.
    destruct (DeleteAcceptRules protocol port interface st) as [[] st1];
      cbn [fst snd] in *; (split; [done|]).
    + unfold on_self; cbn [self]. rewrite holes_of_with_holes. set_solver.
    + by rewrite Hs.
  - intros Hreg Hin. cbn zeta.
    apply registry_ok_holes with (holes := holes) (h := hole) in Hreg as [Hport _];
      [|done].
    unfold r. rewrite PlugHole_unfold by done.
    rewrite bool_decide_eq_true_2 by done. cbn zeta. fold hole.
    rewrite DeleteAcceptRules_unfold. cbn zeta.
    destruct (ip6_enabled_ (self st)); cbn [fst snd negb orb].
    + destruct (exec _ st) as [ok4 s4] eqn:E4; cbn [fst snd].
      destruct (exec _ s4) as [ok6 s6] eqn:E6; cbn [fst snd].
      assert (Hissued : issued s6
                = issued st
                  ++ [accept_cmd false kIpTablesPath protocol port interface;
                      accept_cmd false kIp6TablesPath protocol port interface]).
      { rewrite (exec_eq_issued _ _ _ _ E6), (exec_eq_issued _ _ _ _ E4).
        by rewrite <- app_assoc. }
      assert (Hself : self s6 = self st).
      { by rewrite (exec_eq_self _ _ _ _ E6), (exec_eq_self _ _ _ _ E4). }
      destruct (ok4 && ok6); cbn [fst snd]; unfold on_self;
        cbn [self issued world]; by rewrite ?Hself.
    + destruct (exec _ st) as [ok4 s4] eqn:E4; cbn [fst snd].
      assert (Hissued : issued s4
                = issued st
                  ++ [accept_cmd false kIpTablesPath protocol port interface]).
      { apply (exec_eq_issued _ _ _ _ E4). }
      assert (Hself : self s4 = self st)
        by (by rewrite (exec_eq_self _ _ _ _ E4)).
      rewrite andb_true_r.
      destruct ok4; cbn [fst snd]; unfold on_self;
        cbn [self issued world]; by rewrite ?Hself.
Qed.

(** C10: the empty string is a well-formed interface name, so a punch of a
    non-zero port on it goes on to [AddAcceptRules]; the add and delete
    commands then carry no "-i <interface>" pair. *)
Theorem empty_interface_means_all protocol port holes tool st :
  let proto :=
    match protocol with kProtocolTcp => "tcp" | kProtocolUdp => "udp" end in
  let argv (op : string) :=
    [tool; op; "INPUT"; "-p"; proto; "--dport"; pretty port;
     "-j"; "ACCEPT"; "-w"] in
  IsValidInterfaceName "" = true
  ∧ (port ≠ 0%N → (port, "") ∉ holes_of holes (self st) →
     let r := AddAcceptRules protocol port "" st in
     PunchHole port "" holes protocol st
     = (if r.1
        then (true,
              on_self (λ t, with_holes holes
                              ({[(port, "")]} ∪ holes_of holes t) t) r.2)
        else (false, r.2)))
  ∧ AddAcceptRule tool protocol port "" st = exec (jailed (argv "-I")) st
  ∧ DeleteAcceptRule tool protocol port "" st = exec (jailed (argv "-D")) st
  ∧ (tool = kIpTablesPath ∨ tool = kIp6TablesPath →
     ("-i" ∉ argv "-I") ∧ ("-i" ∉ argv "-D")).
Proof.
  intros proto argv. split_and!.
  - done.
  - intros Hport Hnot. cbn zeta. rewrite PunchHole_unfold by done.
    by rewrite bool_decide_eq_false_2.
  - by rewrite AddAcceptRule_exec.
  - by rewrite DeleteAcceptRule_exec.
  - intros Htool.
    assert (Hp : pretty port ≠ "-i").
    { unfold pretty, pretty_N. case_decide; [done|].
      by apply (pretty_N_go_ne_dash port "" "i"). }
    assert (Ht : tool ≠ "-i").
    { unfold kIpTablesPath, kIp6TablesPath in Htool.
      destruct Htool as [-> | ->]; by destruct android. }
    assert (Hproto : proto ≠ "-i") by (unfold proto; by destruct protocol).
    unfold argv.
    split; rewrite !not_elem_of_cons; split_and!; try done; apply not_elem_of_nil.
Qed.

(** ** Forced teardown (section 4.1, [PlugAllHoles]) *)

Lemma plug_each_failure snapshot pre h post holes protocol st :
  NoDup snapshot → snapshot = pre ++ h :: post →
  h ∈ holes_of holes (self st) →
  (PlugHole h.1 h.2 holes protocol
            (plug_each pre holes protocol st).2).1 = false →
  h ∈ holes_of holes (self (plug_each snapshot holes protocol st).2).
Proof.
  intros Hnodup -> Hin Hfail.
  apply NoDup_app in Hnodup as (_ & Hpre & [Hpost _]%NoDup_cons).
  rewrite plug_each_app, plug_each_cons.
  apply plug_each_keeps; [|done].
  destruct (PlugHole_holes h.1 h.2 holes protocol
              (plug_each pre holes protocol st).2) as (E & _ & _).
  rewrite E, Hfail. apply plug_each_keeps; [done|].
  intros Hin'. apply (Hpre h Hin'). by left.
Qed.

(** C9: [PlugAllHoles] walks a snapshot holding exactly the tracked TCP
    pairs and then one holding exactly the tracked UDP pairs, calling
    [PlugHole] on each.  When it returns, both sets are empty.  A plug that
    fails anywhere in either walk leaves its pair tracked and the call dies
    in a [CHECK]; when no plug fails the call does return. *)
Theorem PlugAllHoles_postcondition st :
  let tcp := in_order (tcp_holes_ (self st)) in
  let st1 := (plug_each tcp TcpHoles kProtocolTcp st).2 in
  let udp := in_order (udp_holes_ (self st1)) in
  let st2 := (plug_each udp UdpHoles kProtocolUdp st1).2 in
  (∀ h, h ∈ tcp ↔ h ∈ tcp_holes_ (self st))
  ∧ (∀ h, h ∈ udp ↔ h ∈ udp_holes_ (self st))
  ∧ (∀ st', PlugAllHoles st = Returned st' →
       st' = st2 ∧ tcp_holes_ (self st') = ∅ ∧ udp_holes_ (self st') = ∅)
  ∧ (∀ h, plug_fails tcp TcpHoles kProtocolTcp st h →
       ∃ message, PlugAllHoles st = CheckFailed message st2
                  ∧ h ∈ tcp_holes_ (self st2))
  ∧ (∀ h, plug_fails udp UdpHoles kProtocolUdp st1 h →
       ∃ message, PlugAllHoles st = CheckFailed message st2
                  ∧ h ∈ udp_holes_ (self st2))
  ∧ ((∀ h, ¬ plug_fails tcp TcpHoles kProtocolTcp st h) →
     (∀ h, ¬ plug_fails udp UdpHoles kProtocolUdp st1 h) →
     PlugAllHoles st = Returned st2).
Proof.
  intros tcp st1 udp st2.
  assert (Hst2 : st2 = after_plugging st) by done.
  assert (Hudp1 : udp_holes_ (self st1) = udp_holes_ (self st)).
  { apply (plug_each_other tcp TcpHoles UdpHoles kProtocolTcp st). done. }
  assert (Htcp2 : tcp_holes_ (self st2) = tcp_holes_ (self st1)).
  { apply (plug_each_other udp UdpHoles TcpHoles kProtocolUdp st1). done. }
  assert (Hdead : ∀ h, h ∈ tcp_holes_ (self st2) ∨ h ∈ udp_holes_ (self st2) →
            ∃ message, PlugAllHoles st = CheckFailed message st2).
  { intros h Hh. rewrite Hst2 in Hh |- *.
    destruct (PlugAllHoles_cases st) as [(_ & Et & Eu) | (Hm & _)]; [|done].
    rewrite Et, Eu in Hh. set_solver. }
  split_and!.
  - intros h. apply in_order_elem_of.
  - intros h. unfold udp. rewrite Hudp1. apply in_order_elem_of.
  - intros st' E. rewrite Hst2.
    destruct (PlugAllHoles_cases st) as [(E' & Et & Eu) | ([msg E'] & _)];
      rewrite E' in E; by simplify_eq.
  - intros h (pre & post & Hsplit & Hfail).
    assert (Hin : h ∈ tcp_holes_ (self st2)).
    { rewrite Htcp2.
      apply (plug_each_failure tcp pre h post TcpHoles kProtocolTcp st);
        [apply in_order_NoDup|done| |done].
      apply in_order_elem_of. change (h ∈ tcp). rewrite Hsplit. set_solver. }
    destruct (Hdead h) as [msg E]; eauto.
  - intros h (pre & post & Hsplit & Hfail).
    assert (Hin : h ∈ udp_holes_ (self st2)).
    { apply (plug_each_failure udp pre h post UdpHoles kProtocolUdp st1);
        [apply in_order_NoDup|done| |done].
      apply in_order_elem_of. change (h ∈ udp). rewrite Hsplit. set_solver. }
    destruct (Hdead h) as [msg E]; eauto.
  - intros Htcp Hudp.
    assert (Hall : ∀ snapshot holes protocol st0,
              (∀ h, ¬ plug_fails snapshot holes protocol st0 h) →
              ∀ pre h post, snapshot = pre ++ h :: post →
                (PlugHole h.1 h.2 holes protocol
                          (plug_each pre holes protocol st0).2).1 = true).
    { intros snapshot holes protocol st0 Hno pre h post Hsplit.
      apply not_false_iff_true. intros Hfail. apply (Hno h). by exists pre, post. }
    assert (Et : tcp_holes_ (self st2) = ∅).
    { rewrite Htcp2.
      pose proof (plug_each_all_plugged tcp TcpHoles kProtocolTcp st
                    (Hall _ _ _ _ Htcp)) as E.
      cbn [holes_of] in E. fold st1 in E. rewrite E.
      unfold tcp. rewrite list_to_set_in_order. set_solver. }
    assert (Eu : udp_holes_ (self st2) = ∅).
    { pose proof (plug_each_all_plugged udp UdpHoles kProtocolUdp st1
                    (Hall _ _ _ _ Hudp)) as E.
      cbn [holes_of] in E. fold st2 in E. rewrite E.
      unfold udp. rewrite list_to_set_in_order. set_solver. }
    rewrite Hst2 in Et, Eu |- *.
    destruct (PlugAllHoles_cases st) as [(E & _) | (_ & [Hne | Hne])]; done.
Qed.

(** ** VPN setup and its rollback (section 4.4) *)

Lemma ApplyVpnSetup_removal_issued usernames interface st :
  issued (ApplyVpnSetup usernames interface false st).2
  = issued st ++ removal_cmds usernames interface.
Proof. rewrite ApplyVpnSetup_removal. cbn zeta. apply exec_all_issued. Qed.

(** C3, as the code has it: when the IPv4 routing rule is installed and the
    IPv6 one fails, the call fails after a rollback that is the whole removal
    pass for no user: it issues the removal of the IPv4 routing rule, of the
    IPv6 routing rule and of the masquerade rule on both subsystems, in that
    order, and of no mark rule; nothing was installed after step 2. *)
Theorem ApplyVpnSetup_ipv6_rule_fails usernames interface st :
  let st1 := (exec (routing_cmd true kIPv4) st).2 in
  let st2 := (exec (routing_cmd true kIPv6) st1).2 in
  (exec (routing_cmd true kIPv4) st).1 = true →
  (exec (routing_cmd true kIPv6) st1).1 = false →
  let r := ApplyVpnSetup usernames interface true st in
  r = (false, (exec_all (removal_cmds [] interface) st2).2)
  ∧ issued r.2
    = issued st
      ++ [routing_cmd true kIPv4; routing_cmd true kIPv6]
      ++ [routing_cmd false kIPv4; routing_cmd false kIPv6;
          masquerade_cmd false kIpTablesPath interface;
          masquerade_cmd false kIp6TablesPath interface]
  ∧ self r.2 = self st.
Proof.
  intros st1 st2 E1 E2 r.
  assert (Hr : r = (false, (exec_all (removal_cmds [] interface) st2).2)).
  { unfold r. rewrite ApplyVpnSetup_unfold. unfold ApplyVpnSetup_body, bind.
    rewrite ApplyRuleForUserTraffic_exec.
    destruct (exec (routing_cmd true kIPv4) st) as [ok1 s1] eqn:Ex1.
    cbn [fst snd] in *. subst ok1 st1. cbn [negb andb].
    rewrite ApplyRuleForUserTraffic_exec.
    destruct (exec (routing_cmd true kIPv6) s1) as [ok2 s2] eqn:Ex2.
    cbn [fst snd] in *. subst ok2 st2. cbn [negb andb].
    rewrite ApplyVpnSetup_removal. done. }
  rewrite Hr. cbn [snd]. split_and!; [done| |].
  - rewrite exec_all_issued. unfold st2, st1. rewrite !exec_issued.
    by rewrite <- !app_assoc.
  - rewrite exec_all_self. unfold st2, st1. by rewrite !exec_self.
Qed.

(** C2, as the code has it: when both routing rules, the masquerade rule and
    the first user's marks are installed and the second user's mark fails,
    the call fails after a rollback that is the removal pass for the first
    user alone: both routing rules, then the masquerade rule, then the first
    user's marks, the order in which they were installed.  No removal is
    issued for the second user's position, whose primary mark may have been
    installed, and nothing at all for the users after it. *)
Theorem ApplyVpnSetup_second_user_fails u1 u2 rest interface st :
  let setup := setup_cmds [u1] interface in
  let st6 := (exec_all setup st).2 in
  let m := ApplyMarkForUserTraffic46 u2 true st6 in
  Forall (λ ok, ok = true) (exec_all setup st).1 →
  m.1 = false →
  let r := ApplyVpnSetup (u1 :: u2 :: rest) interface true st in
  r = (false, (exec_all (removal_cmds [u1] interface) m.2).2)
  ∧ issued r.2 = issued m.2 ++ removal_cmds [u1] interface
  ∧ removal_cmds [u1] interface
    = [routing_cmd false kIPv4; routing_cmd false kIPv6;
       masquerade_cmd false kIpTablesPath interface;
       masquerade_cmd false kIp6TablesPath interface;
       mark_cmd false kIpTablesPath u1; mark_cmd false kIp6TablesPath u1]
  ∧ (issued m.2 = issued st ++ setup ++ [mark_cmd true kIpTablesPath u2]
     ∨ issued m.2 = issued st ++ setup ++ [mark_cmd true kIpTablesPath u2;
                                            mark_cmd true kIp6TablesPath u2])
  ∧ self r.2 = self st.
Proof.
  intros setup st6 m Hall Hm r.
  assert (Hr : r = (false, (exec_all (removal_cmds [u1] interface) m.2).2)).
  { unfold r, m, st6, setup in *. clear r m st6 setup.
    unfold setup_cmds in *. cbn [flat_map app] in *.
    rewrite !exec_all_cons in Hall, Hm |- *. cbn [exec_all fst snd] in *.
    rewrite ApplyVpnSetup_unfold. unfold ApplyVpnSetup_body, bind.
    rewrite ApplyRuleForUserTraffic_exec.
    destruct (exec (routing_cmd true kIPv4) st) as [ok1 s1].
    cbn [fst snd] in *. apply Forall_cons in Hall as [-> Hall].
    cbn [negb andb]. rewrite ApplyRuleForUserTraffic_exec.
    destruct (exec (routing_cmd true kIPv6) s1) as [ok2 s2].
    cbn [fst snd] in *. apply Forall_cons in Hall as [-> Hall].
    cbn [negb andb]. rewrite ApplyMasquerade46_unfold. cbn zeta.
    destruct (exec (masquerade_cmd true kIpTablesPath interface) s2)
      as [ok3 s3].
    cbn [fst snd] in *. apply Forall_cons in Hall as [-> Hall].
    cbn [negb andb].
    destruct (exec (masquerade_cmd true kIp6TablesPath interface) s3)
      as [ok4 s4].
    cbn [fst snd] in *. apply Forall_cons in Hall as [-> Hall].
    cbn [negb andb mark_each]. unfold bind.
    rewrite ApplyMarkForUserTraffic46_unfold. cbn zeta.
    destruct (exec (mark_cmd true kIpTablesPath u1) s4) as [ok5 s5].
    cbn [fst snd] in *. apply Forall_cons in Hall as [-> Hall].
    cbn [negb andb].
    destruct (exec (mark_cmd true kIp6TablesPath u1) s5) as [ok6 s6].
    cbn [fst snd] in *. apply Forall_cons in Hall as [-> Hall].
    cbn [negb andb app].
    destruct (ApplyMarkForUserTraffic46 u2 true s6) as [ok7 s7].
    cbn [fst snd] in *. subst ok7. cbn [negb andb].
    by rewrite ApplyVpnSetup_removal. }
  rewrite Hr. cbn [snd]. split_and!; [done| |done| |].
  - apply exec_all_issued.
  - unfold m. rewrite ApplyMarkForUserTraffic46_unfold. cbn zeta.
    unfold st6. rewrite andb_true_r.
    destruct (exec (mark_cmd true kIpTablesPath u2) _).1; cbn [negb snd].
    + right. by rewrite !exec_issued, exec_all_issued, <- !app_assoc.
    + left. by rewrite !exec_issued, exec_all_issued, <- !app_assoc.
  - rewrite exec_all_self. unfold m.
    rewrite ApplyMarkForUserTraffic46_unfold. cbn zeta.
    destruct (negb _ && true); cbn [snd]; rewrite !exec_self;
      apply exec_all_self.
Qed.

(** * Further properties *)

(** ** VPN setup and removal in full *)

(** X1: [RemoveVpnSetup] issues the whole removal sequence (both routing
    rules, the masquerade rule on both tools, both marks of every user, in
    that order, duplicates included) whatever fails on the way, and answers
    the conjunction of all the outcomes. *)
Theorem RemoveVpnSetup_best_effort usernames interface st :
  let outcome := exec_all (removal_cmds usernames interface) st in
  RemoveVpnSetup usernames interface st = (forallb id outcome.1, outcome.2)
  ∧ issued (RemoveVpnSetup usernames interface st).2
    = issued st ++ removal_cmds usernames interface
  ∧ length (removal_cmds usernames interface) = 4 + 2 * length usernames.
Proof.
  intros outcome. unfold RemoveVpnSetup.
  rewrite ApplyVpnSetup_removal. cbn zeta. fold outcome. split_and!.
  - done.
  - apply exec_all_issued.
  - unfold removal_cmds, mark_removals. cbn [app length].
    induction usernames as [|u us IH]; simpl in *; lia.
Qed.

Lemma mark_each_addition f interface usernames added return_value st :
  let outcome := exec_all (mark_additions usernames) st in
  let r := mark_each f interface true usernames added return_value st in
  r.1 = return_value && forallb id outcome.1
  ∧ (forallb id outcome.1 = true → r.2 = outcome.2).
Proof.
  revert added return_value st.
  induction usernames as [|u us IH]; intros added rv st.
  - cbn. by rewrite andb_true_r.
  - cbn [mark_each mark_additions flat_map app]. fold (mark_additions us).
    cbn zeta. unfold bind. rewrite ApplyMarkForUserTraffic46_unfold.
    cbn zeta. rewrite !exec_all_cons. cbn [fst snd forallb id].
    destruct (exec (mark_cmd true kIpTablesPath u) st) as [[] st1];
      cbn [fst snd negb andb].
    + destruct (exec (mark_cmd true kIp6TablesPath u) st1) as [[] st2];
        cbn [fst snd negb andb].
      * apply IH.
      * destruct (f added interface false st2) as [ok st3]. cbn.
        by rewrite andb_false_r.
    + destruct (f added interface false st1) as [ok st2]. cbn.
      by rewrite andb_false_r.
Qed.

(** X2: [RequestVpnSetup] succeeds exactly when every command of the setup
    sequence (both routing rules, the masquerade rule on both tools, both
    marks of every user in order) succeeds, and then exactly that sequence
    has been issued and nothing removed. *)
Theorem RequestVpnSetup_succeeds_iff usernames interface st :
  let outcome := exec_all (setup_cmds usernames interface) st in
  let r := RequestVpnSetup usernames interface st in
  r.1 = forallb id outcome.1
  ∧ (r.1 = true →
     r.2 = outcome.2
     ∧ issued r.2 = issued st ++ setup_cmds usernames interface).
Proof.
  intros outcome r.
  assert (Hr : r.1 = forallb id outcome.1
               ∧ (forallb id outcome.1 = true → r.2 = outcome.2)).
  { unfold r, outcome, RequestVpnSetup. rewrite ApplyVpnSetup_unfold.
    unfold ApplyVpnSetup_body, bind, setup_cmds. cbn [app].
    fold (mark_additions usernames).
    rewrite !exec_all_cons. cbn [fst snd forallb id].
    rewrite ApplyRuleForUserTraffic_exec.
    destruct (exec (routing_cmd true kIPv4) st) as [[] st1];
      cbn [fst snd negb andb]; [|done].
    rewrite ApplyRuleForUserTraffic_exec.
    destruct (exec (routing_cmd true kIPv6) st1) as [[] st2];
      cbn [fst snd negb andb];
      [|by destruct (ApplyVpnSetup [] interface false st2)].
    rewrite ApplyMasquerade46_unfold. cbn zeta.
    destruct (exec (masquerade_cmd true kIpTablesPath interface) st2)
      as [[] st3]; cbn [fst snd negb andb];
      [|by destruct (ApplyVpnSetup [] interface false st3)].
    destruct (exec (masquerade_cmd true kIp6TablesPath interface) st3)
      as [[] st4]; cbn [fst snd negb andb];
      [|by destruct (ApplyVpnSetup [] interface false st4)].
    apply (mark_each_addition ApplyVpnSetup interface usernames [] true st4). }
  destruct Hr as [Hres Hst]. split; [done|].
  intros Hok. rewrite Hres in Hok. rewrite (Hst Hok). split; [done|].
  apply exec_all_issued.
Qed.

Lemma mark_each_failure interface usernames added st :
  let r := mark_each ApplyVpnSetup interface true usernames added true st in
  r.1 = false →
  ∃ n, n < 2 * length usernames
    ∧ (exec_all (take (S n) (mark_additions usernames)) st).1
      = replicate n true ++ [false]
    ∧ r.2 = (exec_all (removal_cmds (added ++ take (n / 2) usernames)
                                    interface)
                      (exec_all (take (S n) (mark_additions usernames))
                                st).2).2.
Proof.
  revert added st.
  induction usernames as [|u us IH]; intros added st; [done|].
  cbn [mark_each mark_additions flat_map app]. fold (mark_additions us).
  cbn zeta. unfold bind. rewrite ApplyMarkForUserTraffic46_unfold. cbn zeta.
  destruct (exec (mark_cmd true kIpTablesPath u) st) as [[] st1] eqn:E4;
    cbn [fst snd negb andb].
  - destruct (exec (mark_cmd true kIp6TablesPath u) st1) as [[] st2] eqn:E6;
      cbn [fst snd negb andb].
    + intros Hfail. destruct (IH (added ++ [u]) st2 Hfail) as (n & Hn & Ho & Hst).
      exists (S (S n)). split_and!.
      * simpl. lia.
      * cbn [take]. rewrite !exec_all_cons, E4. cbn [fst snd].
        rewrite E6. cbn [fst snd]. by rewrite Ho.
      * cbn [take]. rewrite !exec_all_cons, E4. cbn [fst snd].
        rewrite E6. cbn [fst snd]. rewrite Hst.
        replace (S (S n) / 2) with (S (n / 2))
          by (change (S (S n)) with (1 * 2 + n);
              rewrite (Nat.div_add_l 1 2 n); lia).
        cbn [take]. by rewrite <- app_assoc.
    + intros _. exists 1. split_and!.
      * simpl. lia.
      * cbn [take]. rewrite !exec_all_cons, E4. cbn [fst snd].
        by rewrite E6.
      * cbn [take]. rewrite !exec_all_cons, E4. cbn [fst snd].
        rewrite E6. change (1 / 2) with 0. cbn [exec_all fst snd take].
        rewrite app_nil_r, ApplyVpnSetup_removal. by simpl.
  - intros _. exists 0. split_and!.
    + simpl. lia.
    + cbn [take]. rewrite !exec_all_cons, E4. done.
    + cbn [take]. rewrite !exec_all_cons, E4.
      change (0 / 2) with 0. cbn [exec_all fst snd take].
      rewrite app_nil_r, ApplyVpnSetup_removal. by simpl.
Qed.

(** X3: a failing [RequestVpnSetup] has issued the setup sequence up to and
    including its first failing command, number [n], and then rolled back:
    nothing when the very first command failed, and otherwise the whole
    removal sequence for the users whose two marks were both installed,
    which are the first [(n - 4) / 2] users.  The user whose mark failed is
    not among them, even when it was the ip6tables mark that failed. *)
Theorem RequestVpnSetup_failure_rollback usernames interface st :
  let r := RequestVpnSetup usernames interface st in
  r.1 = false →
  ∃ n,
    let attempted := take (S n) (setup_cmds usernames interface) in
    let rollback :=
      match n with
      | 0 => []
      | _ => removal_cmds (take ((n - 4) / 2) usernames) interface
      end in
    n < 4 + 2 * length usernames
    ∧ (exec_all attempted st).1 = replicate n true ++ [false]
    ∧ r.2 = (exec_all rollback (exec_all attempted st).2).2
    ∧ issued r.2 = issued st ++ attempted ++ rollback.
Proof.
  intros r Hfail.
  cut (∃ n,
    n < 4 + 2 * length usernames
    ∧ (exec_all (take (S n) (setup_cmds usernames interface)) st).1
      = replicate n true ++ [false]
    ∧ r.2 = (exec_all match n with
                      | 0 => []
                      | _ => removal_cmds (take ((n - 4) / 2) usernames)
                                          interface
                      end
                      (exec_all (take (S n) (setup_cmds usernames interface))
                                st).2).2).
  { intros (n & Hn & Ho & Hst). exists n. cbn zeta. split_and!; [done..|].
    by rewrite Hst, !exec_all_issued, <- app_assoc. }
  revert Hfail. unfold r, RequestVpnSetup. rewrite ApplyVpnSetup_unfold.
  unfold ApplyVpnSetup_body, bind, setup_cmds. cbn [app].
  fold (mark_additions usernames).
  rewrite ApplyRuleForUserTraffic_exec.
  destruct (exec (routing_cmd true kIPv4) st) as [[] st1] eqn:E1;
    cbn [fst snd negb andb]; cycle 1.
  { intros _. exists 0. split_and!; [lia|..];
      cbn [take]; rewrite exec_all_cons, E1; done. }
  rewrite ApplyRuleForUserTraffic_exec.
  destruct (exec (routing_cmd true kIPv6) st1) as [[] st2] eqn:E2;
    cbn [fst snd negb andb]; cycle 1.
  { intros _. exists 1. split_and!; [lia|..];
      cbn [take]; rewrite !exec_all_cons, E1; cbn [fst snd]; rewrite E2;
      [done|].
    rewrite ApplyVpnSetup_removal. by simpl. }
  rewrite ApplyMasquerade46_unfold. cbn zeta.
  destruct (exec (masquerade_cmd true kIpTablesPath interface) st2)
    as [[] st3] eqn:E3; cbn [fst snd negb andb]; cycle 1.
  { intros _. exists 2. split_and!; [lia|..];
      cbn [take]; rewrite !exec_all_cons, E1; cbn [fst snd]; rewrite E2;
      cbn [fst snd]; rewrite E3; [done|].
    rewrite ApplyVpnSetup_removal. by simpl. }
  destruct (exec (masquerade_cmd true kIp6TablesPath interface) st3)
    as [[] st4] eqn:E4; cbn [fst snd negb andb]; cycle 1.
  { intros _. exists 3. split_and!; [lia|..];
      cbn [take]; rewrite !exec_all_cons, E1; cbn [fst snd]; rewrite E2;
      cbn [fst snd]; rewrite E3; cbn [fst snd]; rewrite E4; [done|].
    rewrite ApplyVpnSetup_removal. by simpl. }
  intros Hfail.
  destruct (mark_each_failure interface usernames [] st4 Hfail)
    as (n & Hn & Ho & Hst).
  exists (4 + n). split_and!.
  - lia.
  - cbn [Nat.add take]. rewrite !exec_all_cons, E1. cbn [fst snd].
    rewrite E2. cbn [fst snd]. rewrite E3. cbn [fst snd]. rewrite E4.
    cbn [fst snd]. by rewrite Ho.
  - cbn [Nat.add take]. rewrite !exec_all_cons, E1. cbn [fst snd].
    rewrite E2. cbn [fst snd]. rewrite E3. cbn [fst snd]. rewrite E4.
    cbn [fst snd]. rewrite Hst. cbn [app].
    replace (S (S (S (S n))) - 4) with n by lia. done.
Qed.

(** ** What gets run *)

Lemma issues_ret P {A} (a : A) : issues P (ret a).
Proof. intros st. exists []. by rewrite app_nil_r. Qed.

Lemma issues_bind P {A B} (m : M A) (k : A → M B) :
  issues P m → (∀ a, issues P (k a)) → issues P (bind m k).
Proof.
  intros Hm Hk st. unfold bind. destruct (Hm st) as (cs1 & E1 & H1).
  destruct (m st) as [a st1]; simpl in *.
  destruct (Hk a st1) as (cs2 & E2 & H2).
  exists (cs1 ++ cs2). split; [|by apply Forall_app].
  by rewrite E2, E1, <- app_assoc.
Qed.

Lemma issues_exec (P : Command → Prop) c : P c → issues P (exec c).
Proof.
  intros Hc st. exists [c]. split; [apply exec_issued|by constructor].
Qed.

Lemma issues_ext P {A} (m m' : M A) :
  (∀ st, m st = m' st) → issues P m' → issues P m.
Proof. intros E Hm st. rewrite E. apply Hm. Qed.

Lemma issues_quiet P {A} (m : M A) :
  (∀ st, issued (m st).2 = issued st) → issues P m.
Proof. intros E st. exists []. by rewrite app_nil_r. Qed.

Lemma issues_AddAcceptRules (P : Command → Prop) protocol port interface :
  (∀ add tool, tool = kIpTablesPath ∨ tool = kIp6TablesPath →
     P (accept_cmd add tool protocol port interface)) →
  issues P (AddAcceptRules protocol port interface).
Proof.
  intros HP. unfold AddAcceptRules.
  apply issues_bind.
  { eapply issues_ext; [apply AddAcceptRule_exec|]. apply issues_exec; auto. }
  intros ok4. destruct ok4; simpl; [|apply issues_ret].
  apply issues_bind.
  { eapply issues_ext; [apply AddAcceptRule_exec|]. apply issues_exec; auto. }
  intros ok6. destruct ok6.
  { apply issues_bind; [by apply issues_quiet|]. intros _. apply issues_ret. }
  apply issues_bind; [by apply issues_quiet|]. intros enabled.
  destruct enabled; [|apply issues_ret].
  apply issues_bind; [|intros _; apply issues_ret].
  eapply issues_ext; [apply DeleteAcceptRule_exec|]. apply issues_exec; auto.
Qed.

Lemma issues_DeleteAcceptRules (P : Command → Prop) protocol port interface :
  (∀ add tool, tool = kIpTablesPath ∨ tool = kIp6TablesPath →
     P (accept_cmd add tool protocol port interface)) →
  issues P (DeleteAcceptRules protocol port interface).
Proof.
  intros HP. unfold DeleteAcceptRules.
  apply issues_bind.
  { eapply issues_ext; [apply DeleteAcceptRule_exec|]. apply issues_exec; auto. }
  intros ok4. apply issues_bind; [by apply issues_quiet|]. intros enabled.
  apply issues_bind; [|intros ok6; apply issues_ret].
  destruct enabled; simpl; [|apply issues_ret].
  eapply issues_ext; [apply DeleteAcceptRule_exec|]. apply issues_exec; auto.
Qed.

Lemma issues_PunchHole (P : Command → Prop) port interface holes protocol :
  (port ≠ 0%N → IsValidInterfaceName interface = true →
   ∀ add tool, tool = kIpTablesPath ∨ tool = kIp6TablesPath →
     P (accept_cmd add tool protocol port interface)) →
  issues P (PunchHole port interface holes protocol).
Proof.
  intros HP. unfold PunchHole.
  destruct (port =? 0)%N eqn:Eport; [apply issues_ret|].
  apply N.eqb_neq in Eport.
  destruct (IsValidInterfaceName interface) eqn:Evalid; [|apply issues_ret].
  simpl. apply issues_bind; [by apply issues_quiet|]. intros found.
  destruct found; [apply issues_ret|].
  apply issues_bind; [apply issues_AddAcceptRules; auto|]. intros ok.
  destruct ok; simpl; [|apply issues_ret].
  apply issues_bind; [by apply issues_quiet|]. intros _. apply issues_ret.
Qed.

(** [PlugHole] does not validate its arguments, but it only goes on for a
    tracked pair. *)
Lemma PlugHole_issues (P : Command → Prop) port interface holes protocol st :
  (port ≠ 0%N → (port, interface) ∈ holes_of holes (self st) →
   ∀ add tool, tool = kIpTablesPath ∨ tool = kIp6TablesPath →
     P (accept_cmd add tool protocol port interface)) →
  ∃ cs, issued (PlugHole port interface holes protocol st).2 = issued st ++ cs
        ∧ Forall P cs.
Proof.
  intros HP.
  destruct (decide (port = 0%N)) as [->|Hport].
  { exists []. by rewrite app_nil_r. }
  rewrite PlugHole_unfold by done.
  case_bool_decide as Hin; cycle 1.
  { exists []. by rewrite app_nil_r. }
  cbn zeta.
  destruct (issues_DeleteAcceptRules P protocol port interface
              (HP Hport Hin) st) as (cs & E & Hcs).
  exists cs. split; [|done].
  by destruct (DeleteAcceptRules protocol port interface st) as [[] st1].
Qed.

Lemma plug_each_issues (P : Command → Prop) snapshot holes protocol st :
  (∀ h, h ∈ holes_of holes (self st) → h.1 ≠ 0%N →
   ∀ add tool, tool = kIpTablesPath ∨ tool = kIp6TablesPath →
     P (accept_cmd add tool protocol h.1 h.2)) →
  ∃ cs, issued (plug_each snapshot holes protocol st).2 = issued st ++ cs
        ∧ Forall P cs.
Proof.
  revert st. induction snapshot as [|h l IH]; intros st HP.
  - exists []. by rewrite app_nil_r.
  - rewrite plug_each_cons.
    destruct (PlugHole_issues P h.1 h.2 holes protocol st) as (cs1 & E1 & H1).
    { intros Hport Hin. apply HP; [by destruct h|done]. }
    destruct (IH (PlugHole h.1 h.2 holes protocol st).2) as (cs2 & E2 & H2).
    { intros h' Hin. apply HP.
      destruct (PlugHole_holes h.1 h.2 holes protocol st) as (E & _ & _).
      rewrite E in Hin. destruct (PlugHole _ _ _ _ _).1; set_solver. }
    exists (cs1 ++ cs2). split; [|by apply Forall_app].
    by rewrite E2, E1, <- app_assoc.
Qed.

Lemma after_plugging_issues (P : Command → Prop) st :
  (∀ protocol h, h ∈ tcp_holes_ (self st) ∪ udp_holes_ (self st) →
   h.1 ≠ 0%N →
   ∀ add tool, tool = kIpTablesPath ∨ tool = kIp6TablesPath →
     P (accept_cmd add tool protocol h.1 h.2)) →
  ∃ cs, issued (after_plugging st) = issued st ++ cs ∧ Forall P cs.
Proof.
  intros HP. unfold after_plugging.
  set (st1 := (plug_each (in_order (tcp_holes_ (self st))) TcpHoles
                         kProtocolTcp st).2).
  destruct (plug_each_issues P (in_order (tcp_holes_ (self st))) TcpHoles
              kProtocolTcp st) as (cs1 & E1 & H1).
  { intros h Hin. apply HP. set_solver. }
  destruct (plug_each_issues P (in_order (udp_holes_ (self st1))) UdpHoles
              kProtocolUdp st1) as (cs2 & E2 & H2).
  { intros h Hin. apply HP. unfold st1 in Hin.
    rewrite (plug_each_other _ TcpHoles UdpHoles) in Hin by done. set_solver. }
  exists (cs1 ++ cs2). split; [|by apply Forall_app].
  rewrite E2. unfold st1. by rewrite E1, <- app_assoc.
Qed.

Lemma testbit_cap_mask i :
  Z.testbit 12288 i = true ↔ i = 12%Z ∨ i = 13%Z.
Proof.
  change 12288%Z with (Z.lor (Z.shiftl 1 12) (Z.shiftl 1 13)).
  rewrite Z.lor_spec, orb_true_iff.
  destruct (Z.neg_nonneg_cases i) as [Hneg|Hpos].
  { rewrite !Z.testbit_neg_r by done. split; [naive_solver|lia]. }
  rewrite !Z.shiftl_spec by done.
  assert (Hone : ∀ k, Z.testbit 1 k = true ↔ k = 0%Z).
  { intros k. destruct (Z.lt_trichotomy k 0) as [?|[->|?]].
    - rewrite Z.testbit_neg_r by done. split; [done|lia].
    - done.
    - rewrite Z.bits_above_log2 by (simpl; lia). split; [done|lia]. }
  rewrite !Hone. lia.
Qed.

Lemma sandboxed_jailed tool args :
  tool = kIpTablesPath ∨ tool = kIp6TablesPath →
  sandboxed (jailed (tool :: args)).
Proof.
  intros Htool. unfold jailed, sandboxed. cbn [map].
  split_and!; [done|apply testbit_cap_mask|].
  exists (c_str tool), (map c_str args). split; [done|].
  destruct Htool as [-> | ->]; unfold kIpTablesPath, kIp6TablesPath;
    destruct android; auto.
Qed.

Lemma sandboxed_accept add tool protocol port interface :
  tool = kIpTablesPath ∨ tool = kIp6TablesPath →
  sandboxed (accept_cmd add tool protocol port interface).
Proof. intros Htool. by apply sandboxed_jailed. Qed.

Lemma issues_ApplyVpnSetup_body (P : Command → Prop) f usernames interface add :
  (∀ us, issues P (f us interface false)) →
  (∀ a v, P (routing_cmd a v)) →
  (∀ a tool, tool = kIpTablesPath ∨ tool = kIp6TablesPath →
     P (masquerade_cmd a tool interface)) →
  (∀ a tool u, tool = kIpTablesPath ∨ tool = kIp6TablesPath →
     P (mark_cmd a tool u)) →
  issues P (ApplyVpnSetup_body f usernames interface add).
Proof.
  intros Hf Hrule Hmasq Hmark.
  assert (Hrollback : ∀ us, issues P (f us interface false ;;; ret false)).
  { intros us. apply issues_bind; [apply Hf|]. intros _. apply issues_ret. }
  assert (H46 : ∀ u, issues P (ApplyMarkForUserTraffic46 u add)).
  { intros u. unfold ApplyMarkForUserTraffic46.
    apply issues_bind.
    { eapply issues_ext; [apply ApplyMarkForUserTraffic_exec|].
      apply issues_exec; auto. }
    intros ok4. destruct (negb ok4 && add); [apply issues_ret|].
    apply issues_bind; [|intros ok6; apply issues_ret].
    eapply issues_ext; [apply ApplyMarkForUserTraffic_exec|].
    apply issues_exec; auto. }
  assert (Hm46 : issues P (ApplyMasquerade46 interface add)).
  { unfold ApplyMasquerade46.
    apply issues_bind.
    { eapply issues_ext; [apply ApplyMasquerade_exec|].
      apply issues_exec; auto. }
    intros ok4. destruct (negb ok4 && add); [apply issues_ret|].
    apply issues_bind; [|intros ok6; apply issues_ret].
    eapply issues_ext; [apply ApplyMasquerade_exec|].
    apply issues_exec; auto. }
  assert (Hloop : ∀ us added rv,
            issues P (mark_each f interface add us added rv)).
  { induction us as [|u us IH]; intros added rv; simpl; [apply issues_ret|].
    apply issues_bind; [apply H46|]. intros ok.
    destruct (negb ok && add); [apply Hrollback|apply IH]. }
  unfold ApplyVpnSetup_body.
  apply issues_bind.
  { eapply issues_ext; [apply ApplyRuleForUserTraffic_exec|].
    apply issues_exec; auto. }
  intros ok1. destruct (negb ok1 && add); [apply issues_ret|].
  apply issues_bind.
  { eapply issues_ext; [apply ApplyRuleForUserTraffic_exec|].
    apply issues_exec; auto. }
  intros ok2. destruct (negb ok2 && add); [apply Hrollback|].
  apply issues_bind; [apply Hm46|].
  intros ok3. destruct (negb ok3 && add); [apply Hrollback|].
  apply Hloop.
Qed.

Lemma issues_ApplyVpnSetup (P : Command → Prop) usernames interface add :
  (∀ a v, P (routing_cmd a v)) →
  (∀ a tool, tool = kIpTablesPath ∨ tool = kIp6TablesPath →
     P (masquerade_cmd a tool interface)) →
  (∀ a tool u, tool = kIpTablesPath ∨ tool = kIp6TablesPath →
     P (mark_cmd a tool u)) →
  issues P (ApplyVpnSetup usernames interface add).
Proof.
  intros Hrule Hmasq Hmark. unfold ApplyVpnSetup.
  apply issues_ApplyVpnSetup_body; [|done..].
  intros us. apply issues_ApplyVpnSetup_body; [|done..].
  intros us'. apply issues_ret.
Qed.

Lemma perform_issues_sandboxed call st st' :
  perform call st = Some st' →
  ∃ cs, issued st' = issued st ++ cs ∧ Forall sandboxed cs.
Proof.
  assert (Hvpn : ∀ us i a, issues sandboxed (ApplyVpnSetup us i a)).
  { intros us i a. apply issues_ApplyVpnSetup.
    - intros ? ?. unfold routing_cmd, sandboxed. cbn [app]. by eauto.
    - intros ? tool ?. by apply sandboxed_jailed.
    - intros ? tool ? ?. by apply sandboxed_jailed. }
  destruct call; simpl; intros Hst'; simplify_eq.
  - apply issues_PunchHole. intros _ _ ? ?. apply sandboxed_accept.
  - apply issues_PunchHole. intros _ _ ? ?. apply sandboxed_accept.
  - apply PlugHole_issues. intros _ _ ? ?. apply sandboxed_accept.
  - apply PlugHole_issues. intros _ _ ? ?. apply sandboxed_accept.
  - apply Hvpn.
  - apply Hvpn.
  - destruct (PlugAllHoles_cases st) as [(E & _) | ([msg E] & _)];
      rewrite E in Hst'; simplify_eq.
    apply after_plugging_issues. intros ? ? _ _ ? ?. apply sandboxed_accept.
Qed.

Lemma run_call_perform call st :
  perform call st
  = match run_call call st with
    | Returned st' => Some st'
    | CheckFailed _ _ => None
    end.
Proof. by destruct call. Qed.

Lemma run_call_issues (P : Command → Prop) call st :
  (∀ st', perform call st = Some st' →
     ∃ cs, issued st' = issued st ++ cs ∧ Forall P cs) →
  (∃ cs, issued (after_plugging st) = issued st ++ cs ∧ Forall P cs) →
  ∃ cs, issued (outcome_state (run_call call st)) = issued st ++ cs
        ∧ Forall P cs.
Proof.
  intros Hreturn Hteardown. rewrite run_call_perform in Hreturn.
  destruct (run_call call st) as [st'|message st'] eqn:E; [by apply Hreturn|].
  destruct call; simpl in E; try done.
  destruct (PlugAllHoles_cases st) as [(E' & _) | ([msg E'] & _)];
    rewrite E' in E; by simplify_eq.
Qed.

Lemma run_calls_issues (P : Command → Prop) (I : State → Prop) calls st :
  (∀ call st0 st1, call ∈ calls → I st0 → perform call st0 = Some st1 →
     I st1) →
  (∀ call st0, call ∈ calls → I st0 →
     ∃ cs, issued (outcome_state (run_call call st0)) = issued st0 ++ cs
           ∧ Forall P cs) →
  I st →
  ∃ cs, issued (outcome_state (run_calls calls st)) = issued st ++ cs
        ∧ Forall P cs.
Proof.
  revert st. induction calls as [|call calls IH]; intros st Hkeep Hcall Hst.
  - exists []. simpl. by rewrite app_nil_r.
  - destruct (Hcall call st) as (cs1 & E1 & H1); [by left|done|].
    pose proof (Hkeep call st) as Hnext. rewrite run_call_perform in Hnext.
    cbn [run_calls].
    destruct (run_call call st) as [st1|message st1]; cbn [outcome_state] in *.
    + destruct (IH st1) as (cs2 & E2 & H2).
      * intros c s0 s1 Hc. apply Hkeep. by right.
      * intros c s0 Hc. apply Hcall. by right.
      * apply Hnext; [by left|done..].
      * exists (cs1 ++ cs2). split; [|by apply Forall_app].
        by rewrite E2, E1, <- app_assoc.
    + by exists cs1.
Qed.

(** X7: whatever sequence of public calls is made, every command run, up
    to and including those of a teardown that dies in its [CHECK], is either
    ip(6)tables inside minijail, as the unprivileged user (none on Android)
    and with exactly the capabilities CAP_NET_ADMIN (bit 12) and CAP_NET_RAW
    (bit 13), or the [ip] tool started outside minijail. *)
Theorem commands_are_sandboxed calls st :
  ∃ cs, issued (outcome_state (run_calls calls st)) = issued st ++ cs
        ∧ Forall sandboxed cs.
Proof.
  apply (run_calls_issues sandboxed (λ _, True)); [done| |done].
  intros call st0 _ _. apply run_call_issues.
  - intros st'. apply perform_issues_sandboxed.
  - apply after_plugging_issues. intros ? ? _ _ ? ?. apply sandboxed_accept.
Qed.

Lemma perform_all_registry_ok calls st st' :
  registry_ok (self st) → perform_all calls st = Some st' →
  registry_ok (self st').
Proof.
  revert st. induction calls as [|call calls IH]; intros st Hok; simpl.
  - by intros [= <-].
  - destruct (perform call st) as [st1|] eqn:E; [|done].
    apply IH. by eapply perform_registry_ok.
Qed.

(** X4: the registry stays well formed: whatever public calls are made on an
    object whose tracked pairs all have a non-zero port and a well-formed
    interface name, the pairs tracked afterwards do too; no call can slip
    port 0 or an unvalidated name into either set. *)
Theorem registry_stays_wellformed calls st st' h :
  registry_ok (self st) → perform_all calls st = Some st' →
  h ∈ tcp_holes_ (self st') ∪ udp_holes_ (self st') →
  h.1 ≠ 0%N ∧ valid_interface_name h.2.
Proof.
  intros Hok Hcalls Hin.
  destruct (perform_all_registry_ok calls st st' Hok Hcalls h Hin)
    as [Hport Hvalid].
  split; [done|]. by apply IsValidInterfaceName_spec.
Qed.

Lemma validated_accept_intro add tool protocol port interface :
  port ≠ 0%N → IsValidInterfaceName interface = true →
  tool = kIpTablesPath ∨ tool = kIp6TablesPath →
  validated_accept (accept_cmd add tool protocol port interface).
Proof. intros. unfold validated_accept. by eauto 10. Qed.

Lemma perform_issues_validated call st st' :
  hole_call call → registry_ok (self st) → perform call st = Some st' →
  ∃ cs, issued st' = issued st ++ cs ∧ Forall validated_accept cs.
Proof.
  intros Hcall Hok.
  pose proof (proj1 (registry_ok_holes (self st)) Hok) as Hreg.
  destruct call; simpl; try done; intros Hst'; simplify_eq.
  - apply issues_PunchHole. intros. by apply validated_accept_intro.
  - apply issues_PunchHole. intros. by apply validated_accept_intro.
  - apply PlugHole_issues. intros _ Hin ? ? ?.
    apply validated_accept_intro; [..|done]; by apply (Hreg _ _ Hin).
  - apply PlugHole_issues. intros _ Hin ? ? ?.
    apply validated_accept_intro; [..|done]; by apply (Hreg _ _ Hin).
  - destruct (PlugAllHoles_cases st) as [(E & _) | ([msg E] & _)];
      rewrite E in Hst'; simplify_eq.
    apply after_plugging_issues. intros protocol h Hin _ ? ? ?.
    apply validated_accept_intro; [..|done]; by apply (Hok h Hin).
Qed.

(** X8: the hole interface never runs a command built from an unchecked
    argument.  On an object with a well-formed registry, every command run
    by any sequence of punch, plug and plug-all calls, a plug-all that dies
    in its [CHECK] included, is an ip(6)tables accept-rule command for a
    non-zero port and a well-formed interface name, although [PlugHole]
    itself validates nothing: it only goes on for a pair that a punch has
    validated before. *)
Theorem hole_commands_are_validated calls st :
  Forall hole_call calls → registry_ok (self st) →
  ∃ cs, issued (outcome_state (run_calls calls st)) = issued st ++ cs
        ∧ Forall validated_accept cs.
Proof.
  intros Hcalls Hok.
  apply (run_calls_issues validated_accept (λ s, registry_ok (self s)));
    [|clear st Hok|done].
  - intros call st0 st1 _. apply perform_registry_ok.
  - intros call st0 Hcall%(proj1 (Forall_forall _ _) Hcalls) Hok.
    apply run_call_issues.
    + intros st'. by apply perform_issues_validated.
    + apply after_plugging_issues. intros protocol h Hin _ ? ? ?.
      apply validated_accept_intro; [..|done]; by apply (Hok h Hin).
Qed.

Lemma PunchHole_requested port interface holes protocol st h :
  h ∈ holes_of holes (self (PunchHole port interface holes protocol st).2) →
  h ∈ holes_of holes (self st)
  ∨ h = (port, interface)
    ∧ accept_cmd true kIpTablesPath protocol port interface
      ∈ issued (PunchHole port interface holes protocol st).2.
Proof.
  destruct (decide (port = 0%N)) as [->|Hport]; [by left|].
  destruct (IsValidInterfaceName interface) eqn:Hvalid; cycle 1.
  { unfold PunchHole. rewrite Hvalid.
    destruct (port =? 0)%N; simpl; by left. }
  rewrite PunchHole_unfold by done.
  case_bool_decide; [by left|]. cbn zeta.
  pose proof (AddAcceptRules_succeeded_issued protocol port interface st)
    as Hissued.
  pose proof (AddAcceptRules_holes protocol port interface holes st) as Hh.
  destruct (AddAcceptRules protocol port interface st) as [[] st1];
    cbn [fst snd] in *.
  - unfold on_self; cbn [self issued]. rewrite holes_of_with_holes, Hh.
    intros [->%elem_of_singleton|Hin]%elem_of_union; [right|by left].
    split; [done|]. rewrite Hissued by done. set_solver.
  - rewrite Hh. by left.
Qed.

Lemma perform_holes_requested call st st' :
  holes_requested st → perform call st = Some st' → holes_requested st'.
Proof.
  intros Hreq Hst'.
  destruct (perform_issues_sandboxed call st st' Hst') as (cs & Hgrow & _).
  assert (Hold : ∀ c, c ∈ issued st → c ∈ issued st').
  { intros c Hc. rewrite Hgrow. set_solver. }
  assert (Hshrink : tcp_holes_ (self st') ⊆ tcp_holes_ (self st) →
                    udp_holes_ (self st') ⊆ udp_holes_ (self st) →
                    holes_requested st').
  { intros Ht Hu h. destruct (Hreq h) as [Htcp Hudp].
    split; intros Hin; apply Hold; [apply Htcp|apply Hudp]; set_solver. }
  assert (Hplug : ∀ port interface holes protocol,
            st' = (PlugHole port interface holes protocol st).2 →
            holes_requested st').
  { intros port interface holes protocol ->.
    destruct (PlugHole_holes port interface holes protocol st)
      as (Hsame & Hother & _).
    destruct holes.
    - pose proof (Hother UdpHoles ltac:(done)) as Hu.
      cbn [holes_of] in Hsame, Hu. apply Hshrink; [|by rewrite Hu].
      rewrite Hsame. destruct (PlugHole _ _ _ _ _).1; set_solver.
    - pose proof (Hother TcpHoles ltac:(done)) as Ht.
      cbn [holes_of] in Hsame, Ht. apply Hshrink; [by rewrite Ht|].
      rewrite Hsame. destruct (PlugHole _ _ _ _ _).1; set_solver. }
  destruct call; simpl in Hst'; simplify_eq.
  - intros h. destruct (Hreq h) as [Htcp Hudp]. split.
    + intros [Hin|[-> Hc]]%(PunchHole_requested _ _ TcpHoles); [|done].
      by apply Hold, Htcp.
    + intros Hin. apply Hold, Hudp. unfold PunchTcpHole in Hin.
      destruct (PunchHole_holes port interface TcpHoles kProtocolTcp st)
        as (_ & Hother & _).
      pose proof (Hother UdpHoles ltac:(done)) as Hu.
      cbn [holes_of] in Hu. by rewrite Hu in Hin.
  - intros h. destruct (Hreq h) as [Htcp Hudp]. split.
    + intros Hin. apply Hold, Htcp. unfold PunchUdpHole in Hin.
      destruct (PunchHole_holes port interface UdpHoles kProtocolUdp st)
        as (_ & Hother & _).
      pose proof (Hother TcpHoles ltac:(done)) as Ht.
      cbn [holes_of] in Ht. by rewrite Ht in Hin.
    + intros [Hin|[-> Hc]]%(PunchHole_requested _ _ UdpHoles); [|done].
      by apply Hold, Hudp.
  - by eapply Hplug.
  - by eapply Hplug.
  - apply Hshrink; unfold RequestVpnSetup; by rewrite ApplyVpnSetup_self.
  - apply Hshrink; unfold RemoveVpnSetup; by rewrite ApplyVpnSetup_self.
  - destruct (PlugAllHoles_cases st) as [(E & Et & Eu) | ([msg E] & _)];
      rewrite E in Hst'; simplify_eq.
    apply Hshrink; [rewrite Et|rewrite Eu]; set_solver.
Qed.

(** X5: no hole is tracked without its rule having been asked for.  After
    any sequence of public calls on an object that started with an empty
    registry, the iptables add command of every tracked TCP pair and of every
    tracked UDP pair is in the trace of commands run. *)
Theorem tracked_holes_were_requested calls st st' :
  tcp_holes_ (self st) = ∅ → udp_holes_ (self st) = ∅ →
  perform_all calls st = Some st' → holes_requested st'.
Proof.
  intros Et Eu.
  assert (Hreq : holes_requested st).
  { intros h. rewrite Et, Eu. set_solver. }
  clear Et Eu. revert st Hreq.
  induction calls as [|call calls IH]; intros st Hreq; simpl.
  - by intros [= <-].
  - destruct (perform call st) as [st1|] eqn:E; [|done].
    apply IH. by eapply perform_holes_requested.
Qed.

(** ** Punching and plugging, outcome by outcome *)

Lemma PunchHole_rejects port interface holes protocol st :
  (port =? 0)%N = true ∨ IsValidInterfaceName interface = false →
  PunchHole port interface holes protocol st = (false, st).
Proof.
  unfold PunchHole. intros [-> | ->]; [done|]. by destruct (port =? 0)%N.
Qed.

(** X15: the outcome of a punch and of a plug as one formula each.  A punch
    succeeds exactly when the port is not 0, the name is well formed, and the
    pair is tracked already or the iptables add succeeds and the ip6tables
    add succeeds or is not required (flag clear).  A plug succeeds exactly
    when the port is not 0, the pair is tracked, the iptables delete succeeds
    and the ip6tables delete succeeds or is not required. *)
Theorem punch_and_plug_outcomes port interface holes protocol st :
  let tracked := bool_decide ((port, interface) ∈ holes_of holes (self st)) in
  let required := ip6_enabled_ (self st) in
  let add4 := exec (accept_cmd true kIpTablesPath protocol port interface) st in
  let add6 :=
    exec (accept_cmd true kIp6TablesPath protocol port interface) add4.2 in
  let del4 := exec (accept_cmd false kIpTablesPath protocol port interface) st in
  let del6 :=
    exec (accept_cmd false kIp6TablesPath protocol port interface) del4.2 in
  (PunchHole port interface holes protocol st).1
  = negb (port =? 0)%N && IsValidInterfaceName interface
    && (tracked || add4.1 && (add6.1 || negb required))
  ∧ (PlugHole port interface holes protocol st).1
    = negb (port =? 0)%N && tracked && del4.1 && (negb required || del6.1).
Proof.
  intros tracked required add4 add6 del4 del6. split.
  - destruct (port =? 0)%N eqn:Eport.
    { by rewrite PunchHole_rejects by auto. }
    destruct (IsValidInterfaceName interface) eqn:Evalid; cycle 1.
    { by rewrite PunchHole_rejects by auto. }
    apply N.eqb_neq in Eport. rewrite PunchHole_unfold by done.
    fold tracked. destruct tracked; [done|]. cbn zeta.
    rewrite AddAcceptRules_unfold. cbn zeta. fold add4. fold add6.
    fold required.
    destruct add4.1; cbn [fst andb orb negb]; [|done].
    destruct add6.1; cbn [fst andb orb negb]; [done|].
    by destruct required.
  - destruct (port =? 0)%N eqn:Eport.
    { apply N.eqb_eq in Eport as ->. done. }
    apply N.eqb_neq in Eport. rewrite PlugHole_unfold by done.
    fold tracked. destruct tracked; [|done]. cbn zeta.
    rewrite DeleteAcceptRules_unfold. cbn zeta. fold del4. fold del6.
    fold required.
    destruct required; cbn [fst snd andb orb negb].
    + by destruct (del4.1 && del6.1).
    + rewrite andb_true_r. by destruct del4.1.
Qed.

(** X13: punch and plug undo each other.  When an untracked pair is punched
    and then plugged, both successfully, the two hole sets are as they were
    at the start; the flag is set if it was set or the ip6tables add
    succeeded; and the commands run are the two adds, the iptables delete
    and, exactly when the flag is then set, the ip6tables delete: a rule
    that was installed in ip6tables is never left behind. *)
Theorem punch_then_plug_restores port interface holes protocol st :
  let r1 := PunchHole port interface holes protocol st in
  let r2 := PlugHole port interface holes protocol r1.2 in
  let add4 := accept_cmd true kIpTablesPath protocol port interface in
  let add6 := accept_cmd true kIp6TablesPath protocol port interface in
  let del4 := accept_cmd false kIpTablesPath protocol port interface in
  let del6 := accept_cmd false kIp6TablesPath protocol port interface in
  let required :=
    ip6_enabled_ (self st) || (exec add6 (exec add4 st).2).1 in
  (port, interface) ∉ holes_of holes (self st) →
  r1.1 = true → r2.1 = true →
  tcp_holes_ (self r2.2) = tcp_holes_ (self st)
  ∧ udp_holes_ (self r2.2) = udp_holes_ (self st)
  ∧ ip6_enabled_ (self r2.2) = required
  ∧ issued r2.2
    = issued st ++ [add4; add6; del4] ++ (if required then [del6] else []).
Proof.
  intros r1 r2 add4 add6 del4 del6 required Hnot Hok1 Hok2.
  assert (Hport : port ≠ 0%N).
  { intros ->. by unfold r1 in Hok1. }
  assert (Hvalid : IsValidInterfaceName interface = true).
  { destruct (IsValidInterfaceName interface) eqn:E; [done|].
    unfold r1 in Hok1. by rewrite PunchHole_rejects in Hok1 by auto. }
  assert (Hr1 : r1 = PunchHole port interface holes protocol st) by done.
  rewrite PunchHole_unfold, bool_decide_eq_false_2 in Hr1 by done.
  cbn zeta in Hr1.
  pose proof (AddAcceptRules_succeeded_issued protocol port interface st)
    as Hissued1.
  pose proof (λ hs, AddAcceptRules_holes protocol port interface hs st)
    as Hholes1.
  assert (Hflag1 : (AddAcceptRules protocol port interface st).1 = true →
            ip6_enabled_ (self (AddAcceptRules protocol port interface st).2)
            = required).
  { unfold required, add4, add6.
    rewrite AddAcceptRules_unfold. cbn zeta.
    destruct (exec _ st) as [[] s1] eqn:E4; cbn [fst snd]; [|done].
    destruct (exec _ s1) as [[] s2] eqn:E6; cbn [fst snd].
    - intros _. by rewrite orb_true_r.
    - destruct (ip6_enabled_ (self st)) eqn:Ef; [done|]. intros _.
      cbn [snd orb].
      by rewrite (exec_eq_self _ _ _ _ E6), (exec_eq_self _ _ _ _ E4). }
  destruct (AddAcceptRules protocol port interface st) as [[] sa] eqn:Ea;
    cbn [fst snd] in *; [|by rewrite Hr1 in Hok1].
  specialize (Hissued1 eq_refl). specialize (Hflag1 eq_refl).
  set (s1 := on_self (λ t, with_holes holes
                 ({[(port, interface)]} ∪ holes_of holes t) t) sa) in *.
  assert (Hs1 : r1.2 = s1) by (by rewrite Hr1).
  assert (Hr2 : r2 = PlugHole port interface holes protocol s1)
    by (unfold r2; by rewrite Hs1).
  assert (Hin : (port, interface) ∈ holes_of holes (self s1)).
  { unfold s1, on_self; cbn [self]. rewrite holes_of_with_holes. set_solver. }
  rewrite PlugHole_unfold, bool_decide_eq_true_2 in Hr2 by done.
  cbn zeta in Hr2.
  pose proof (DeleteAcceptRules_self protocol port interface s1) as Hself2.
  assert (Hissued2 :
    issued (DeleteAcceptRules protocol port interface s1).2
    = issued s1 ++ del4 :: (if required then [del6] else [])).
  { rewrite DeleteAcceptRules_unfold. cbn zeta.
    replace (ip6_enabled_ (self s1)) with required
      by (unfold s1, on_self; cbn [self];
          by rewrite ip6_enabled_with_holes).
    destruct required; cbn [snd]; rewrite !exec_issued; [|done].
    by rewrite <- app_assoc. }
  destruct (DeleteAcceptRules protocol port interface s1) as [[] sd];
    cbn [fst snd] in *; [|by rewrite Hr2 in Hok2].
  rewrite Hr2. cbn [snd]. unfold on_self; cbn [self issued].
  rewrite Hself2.
  assert (Hback : ∀ holes',
            holes_of holes'
              (with_holes holes (holes_of holes (self s1) ∖ {[(port, interface)]})
                          (self s1))
            = holes_of holes' (self st)).
  { intros holes'. destruct (decide (holes = holes')) as [<-|Hne].
    - rewrite holes_of_with_holes. unfold s1, on_self; cbn [self].
      rewrite holes_of_with_holes, (Hholes1 holes). set_solver.
    - rewrite holes_of_with_holes_ne by done. unfold s1, on_self; cbn [self].
      by rewrite holes_of_with_holes_ne, (Hholes1 holes'). }
  split_and!.
  - apply (Hback TcpHoles).
  - apply (Hback UdpHoles).
  - rewrite ip6_enabled_with_holes. unfold s1, on_self; cbn [self].
    by rewrite ip6_enabled_with_holes.
  - rewrite Hissued2. unfold s1, on_self; cbn [issued]. rewrite Hissued1.
    by rewrite <- !app_assoc.
Qed.

(** X14: a plug that fails half way keeps the pair tracked.  With the flag
    set, when the iptables delete of a tracked pair succeeds and the
    ip6tables delete fails, [PlugHole] answers failure and the pair stays
    tracked although its iptables rule has just been deleted; a following
    [PunchHole] of the pair then succeeds without running any command. *)
Theorem failed_plug_keeps_tracking port interface holes protocol st :
  let del4 := accept_cmd false kIpTablesPath protocol port interface in
  let del6 := accept_cmd false kIp6TablesPath protocol port interface in
  let r := PlugHole port interface holes protocol st in
  port ≠ 0%N → IsValidInterfaceName interface = true →
  (port, interface) ∈ holes_of holes (self st) →
  ip6_enabled_ (self st) = true →
  (exec del4 st).1 = true → (exec del6 (exec del4 st).2).1 = false →
  r.1 = false
  ∧ issued r.2 = issued st ++ [del4; del6]
  ∧ (port, interface) ∈ holes_of holes (self r.2)
  ∧ PunchHole port interface holes protocol r.2 = (true, r.2).
Proof.
  intros del4 del6 r Hport Hvalid Hin Hflag E4 E6.
  assert (Hr : r = (false, (exec del6 (exec del4 st).2).2)).
  { unfold r. rewrite PlugHole_unfold, bool_decide_eq_true_2 by done.
    cbn zeta. rewrite DeleteAcceptRules_unfold. cbn zeta.
    fold del4 del6. by rewrite Hflag, E4, E6. }
  assert (Hstill : (port, interface) ∈ holes_of holes (self r.2)).
  { rewrite Hr. cbn [snd]. by rewrite !exec_self. }
  split_and!.
  - by rewrite Hr.
  - rewrite Hr. cbn [snd]. by rewrite !exec_issued, <- app_assoc.
  - done.
  - rewrite PunchHole_unfold by done. by rewrite bool_decide_eq_true_2.
Qed.

(** X9: a punch or a plug touches one pair of one set.  Whether any other
    pair is tracked, in the same set or in the other, is not changed by
    [PunchHole] or [PlugHole], whatever the outcome. *)
Theorem registry_frame port interface holes protocol st holes' h :
  (holes', h) ≠ (holes, (port, interface)) →
  (h ∈ holes_of holes' (self (PunchHole port interface holes protocol st).2)
   ↔ h ∈ holes_of holes' (self st))
  ∧ (h ∈ holes_of holes' (self (PlugHole port interface holes protocol st).2)
     ↔ h ∈ holes_of holes' (self st)).
Proof.
  intros Hne.
  destruct (PunchHole_holes port interface holes protocol st)
    as (Hpunch & Hpunch' & _).
  destruct (PlugHole_holes port interface holes protocol st)
    as (Hplug & Hplug' & _).
  destruct (decide (holes = holes')) as [<-|Hother].
  - assert (h ≠ (port, interface)) by (intros ->; by apply Hne).
    split.
    + destruct Hpunch as [-> | (_ & _ & ->)]; set_solver.
    + rewrite Hplug. destruct (PlugHole _ _ _ _ _).1; set_solver.
  - by rewrite Hpunch', Hplug'.
Qed.

(** X10: a call that fails leaves no mark on the object.  After a
    [PunchHole] or a [PlugHole] that answered failure, both hole sets and
    the flag are what they were; and the VPN calls never change them,
    whatever they answer. *)
Theorem failed_calls_keep_object port interface holes protocol usernames add st :
  ((PunchHole port interface holes protocol st).1 = false →
   self (PunchHole port interface holes protocol st).2 = self st)
  ∧ ((PlugHole port interface holes protocol st).1 = false →
     self (PlugHole port interface holes protocol st).2 = self st)
  ∧ self (ApplyVpnSetup usernames interface add st).2 = self st.
Proof.
  split_and!.
  - destruct (port =? 0)%N eqn:Eport.
    { by rewrite PunchHole_rejects by auto. }
    destruct (IsValidInterfaceName interface) eqn:Evalid; cycle 1.
    { by rewrite PunchHole_rejects by auto. }
    apply N.eqb_neq in Eport. rewrite PunchHole_unfold by done.
    case_bool_decide; [done|]. cbn zeta.
    pose proof (AddAcceptRules_failed_self protocol port interface st) as Hs.
    destruct (AddAcceptRules protocol port interface st) as [[] s1];
      cbn [fst snd] in *; [done|auto].
  - destruct (decide (port = 0%N)) as [->|Hport]; [done|].
    rewrite PlugHole_unfold by done.
    case_bool_decide; [|done]. cbn zeta.
    pose proof (DeleteAcceptRules_self protocol port interface st) as Hs.
    destruct (DeleteAcceptRules protocol port interface st) as [[] s1];
      cbn [fst snd] in *; [done|auto].
  - apply ApplyVpnSetup_self.
Qed.

(** ** Teardown, command by command *)

Lemma PlugHole_succeeded_issued port interface holes protocol st :
  (PlugHole port interface holes protocol st).1 = true →
  issued (PlugHole port interface holes protocol st).2
  = issued st
    ++ accept_cmd false kIpTablesPath protocol port interface
       :: (if ip6_enabled_ (self st)
           then [accept_cmd false kIp6TablesPath protocol port interface]
           else []).
Proof.
  destruct (decide (port = 0%N)) as [->|Hport]; [done|].
  rewrite PlugHole_unfold by done.
  case_bool_decide; [|done]. cbn zeta.
  rewrite DeleteAcceptRules_unfold. cbn zeta.
  destruct (ip6_enabled_ (self st)); cbn [fst snd].
  - destruct (_ && _); [|done]. intros _. unfold on_self; cbn [issued].
    by rewrite !exec_issued, <- app_assoc.
  - destruct (exec _ st).1; [|done]. intros _. unfold on_self; cbn [issued].
    by rewrite exec_issued.
Qed.

Lemma plug_each_all_plugged_issued snapshot holes protocol st :
  (∀ pre h post, snapshot = pre ++ h :: post →
     (PlugHole h.1 h.2 holes protocol
               (plug_each pre holes protocol st).2).1 = true) →
  issued (plug_each snapshot holes protocol st).2
  = issued st
    ++ flat_map (λ h, accept_cmd false kIpTablesPath protocol h.1 h.2
                      :: (if ip6_enabled_ (self st)
                          then [accept_cmd false kIp6TablesPath protocol
                                           h.1 h.2]
                          else []))
                snapshot.
Proof.
  revert st. induction snapshot as [|h l IH]; intros st Hall.
  - simpl. by rewrite app_nil_r.
  - rewrite plug_each_cons, IH.
    + pose proof (Hall [] h l eq_refl) as Hh. simpl in Hh.
      rewrite (PlugHole_succeeded_issued _ _ _ _ _ Hh).
      destruct (PlugHole_holes h.1 h.2 holes protocol st) as (_ & _ & ->).
      cbn [flat_map]. by rewrite <- app_assoc.
    + intros pre h' post ->.
      specialize (Hall (h :: pre) h' post eq_refl).
      by rewrite plug_each_cons in Hall.
Qed.

Lemma plug_each_emptied snapshot holes protocol st :
  NoDup snapshot → (∀ h, h ∈ snapshot → h ∈ holes_of holes (self st)) →
  holes_of holes (self (plug_each snapshot holes protocol st).2) = ∅ →
  ∀ pre h post, snapshot = pre ++ h :: post →
    (PlugHole h.1 h.2 holes protocol
              (plug_each pre holes protocol st).2).1 = true.
Proof.
  intros Hnodup Hin Hempty pre h post Hsplit.
  apply not_false_iff_true. intros Hfail.
  assert (Hh : h ∈ holes_of holes (self st)).
  { apply Hin. rewrite Hsplit. set_solver. }
  pose proof (plug_each_failure snapshot pre h post holes protocol st
                Hnodup Hsplit Hh Hfail) as Hleft.
  rewrite Hempty in Hleft. set_solver.
Qed.

(** X6: a teardown that returns has run, beyond what was run before, exactly
    the iptables delete of every tracked TCP pair, then of every tracked UDP
    pair, each set in its iteration order, every delete followed by the
    ip6tables delete of the same pair when the flag is set; nothing is run
    for an untracked pair, and on an empty registry nothing is run at all.
    The destructor is this call. *)
Theorem PlugAllHoles_teardown_trace st st' :
  IpTables_dtor st = Returned st' →
  issued st'
  = issued st
    ++ teardown_cmds kProtocolTcp (ip6_enabled_ (self st))
                     (tcp_holes_ (self st))
    ++ teardown_cmds kProtocolUdp (ip6_enabled_ (self st))
                     (udp_holes_ (self st))
  ∧ ip6_enabled_ (self st') = ip6_enabled_ (self st)
  ∧ (tcp_holes_ (self st) = ∅ → udp_holes_ (self st) = ∅ →
     issued st' = issued st).
Proof.
  unfold IpTables_dtor. intros Hret.
  destruct (PlugAllHoles_cases st) as [(E & Et & Eu) | ([msg E] & _)];
    rewrite E in Hret; simplify_eq.
  unfold after_plugging in *.
  set (tcp := in_order (tcp_holes_ (self st))) in *.
  set (st1 := (plug_each tcp TcpHoles kProtocolTcp st).2) in *.
  set (udp := in_order (udp_holes_ (self st1))) in *.
  assert (Hudp1 : udp_holes_ (self st1) = udp_holes_ (self st)).
  { apply (plug_each_other tcp TcpHoles UdpHoles kProtocolTcp st). done. }
  assert (Et1 : tcp_holes_ (self st1) = ∅).
  { rewrite <- Et.
    symmetry. apply (plug_each_other udp UdpHoles TcpHoles kProtocolUdp st1).
    done. }
  assert (Htcp : issued st1
                 = issued st ++ teardown_cmds kProtocolTcp
                                  (ip6_enabled_ (self st))
                                  (tcp_holes_ (self st))).
  { apply plug_each_all_plugged_issued.
    apply plug_each_emptied; [apply in_order_NoDup| |done].
    intros h. apply in_order_elem_of. }
  assert (Hflag1 : ip6_enabled_ (self st1) = ip6_enabled_ (self st)).
  { apply plug_each_flag. }
  assert (Hissued :
    issued (plug_each udp UdpHoles kProtocolUdp st1).2
    = issued st
      ++ teardown_cmds kProtocolTcp (ip6_enabled_ (self st))
                       (tcp_holes_ (self st))
      ++ teardown_cmds kProtocolUdp (ip6_enabled_ (self st))
                       (udp_holes_ (self st))).
  { rewrite plug_each_all_plugged_issued.
    - rewrite Htcp, Hflag1, <- app_assoc. unfold teardown_cmds, udp.
      by rewrite Hudp1.
    - apply plug_each_emptied; [apply in_order_NoDup| |done].
      intros h. apply in_order_elem_of. }
  split_and!.
  - done.
  - by rewrite plug_each_flag.
  - intros Ht0 Hu0. rewrite Hissued, Ht0, Hu0.
    by rewrite app_nil_r.
Qed.

(** ** Command lines *)

Lemma c_str_pretty_N_go (x : N) (s : string) :
  c_str s = s → c_str (pretty_N_go x s) = pretty_N_go x s.
Proof.
  revert s. induction (N.lt_wf_0 x) as [x _ IH]; intros s Hs.
  assert (x = 0 ∨ 0 < x)%N as [->|Hpos] by lia.
  - by rewrite pretty_N_go_0.
  - rewrite pretty_N_go_step by done. apply IH; [by apply N.div_lt|].
    cbn [c_str]. rewrite Hs. unfold pretty_N_char.
    by repeat case_match.
Qed.

Lemma c_str_pretty (port : N) : c_str (pretty port) = pretty port.
Proof.
  unfold pretty, pretty_N. case_decide; [done|].
  by apply c_str_pretty_N_go.
Qed.

(** A well-formed interface name has no NUL in it. *)
Lemma c_str_valid_name iface :
  IsValidInterfaceName iface = true → c_str iface = iface.
Proof.
  intros (_ & Hchars & _)%IsValidInterfaceName_spec.
  induction iface as [|a iface IH]; [done|].
  cbn [String.list_ascii_of_string] in Hchars.
  apply Forall_cons in Hchars as [Ha Hchars].
  cbn [c_str]. rewrite (IH Hchars).
  destruct (Ascii.eqb_spec a "000"%char) as [->|_]; [|done].
  by destruct Ha as [Ha|[Ha|Ha]].
Qed.

Lemma accept_cmd_eq_iff add add' tool tool' protocol protocol' port port'
    interface interface' :
  accept_cmd add tool protocol port interface
  = accept_cmd add' tool' protocol' port' interface'
  ↔ add = add' ∧ c_str tool = c_str tool' ∧ protocol = protocol'
    ∧ port = port' ∧ (interface = "" ↔ interface' = "")
    ∧ c_str interface = c_str interface'.
Proof.
  unfold accept_cmd, jailed. split.
  - intros [= Htool Hop Hproto Hport Hrest].
    rewrite !c_str_pretty in Hport. apply (inj pretty) in Hport.
    assert (add = add') by (by destruct add, add').
    assert (protocol = protocol') by (by destruct protocol, protocol').
    assert ((interface = "" ↔ interface' = "")
            ∧ c_str interface = c_str interface') as [??].
    { destruct interface, interface'; cbn [app map] in Hrest;
        simplify_eq; done. }
    done.
  - intros (-> & Htool & -> & -> & Hempty & Hiface).
    f_equal. cbn [app map]. rewrite Htool. do 7 f_equal.
    destruct interface, interface'; cbn [app map]; try done.
    + discriminate (proj1 Hempty eq_refl).
    + discriminate (proj2 Hempty eq_refl).
    + by rewrite Hiface.
Qed.

(** X11: the command line of an accept rule tells the rule, as far as C
    strings go.  Two calls of [AddAcceptRule] or [DeleteAcceptRule] run the
    same command exactly when they agree on adding or deleting, on the
    protocol and the port, on whether the interface is empty, and on the tool
    and the interface up to their first NUL, which is where [c_str()] ends
    them.  Well-formed interface names have no NUL: for them the command
    tells the interface itself, so distinct tracked holes never share a
    rule. *)
Theorem accept_rule_command_tells_rule add add' tool tool' protocol protocol'
    port port' interface interface' st st' :
  let rule (a : bool) := if a then AddAcceptRule else DeleteAcceptRule in
  let same_command :=
    last (issued (rule add tool protocol port interface st).2)
    = last (issued (rule add' tool' protocol' port' interface' st').2) in
  (same_command
   ↔ add = add' ∧ c_str tool = c_str tool' ∧ protocol = protocol'
     ∧ port = port' ∧ (interface = "" ↔ interface' = "")
     ∧ c_str interface = c_str interface')
  ∧ (same_command →
     IsValidInterfaceName interface = true →
     IsValidInterfaceName interface' = true →
     (port, interface) = (port', interface')).
Proof.
  intros rule same_command.
  assert (Hrule : ∀ a tl pr n i s,
            last (issued (rule a tl pr n i s).2)
            = Some (accept_cmd a tl pr n i)).
  { intros a tl pr n i s. unfold rule. destruct a.
    - by rewrite AddAcceptRule_exec, exec_issued, last_snoc.
    - by rewrite DeleteAcceptRule_exec, exec_issued, last_snoc. }
  assert (Hsame : same_command
            ↔ accept_cmd add tool protocol port interface
              = accept_cmd add' tool' protocol' port' interface').
  { unfold same_command. rewrite !Hrule. split; [|by intros ->].
    intros Hc. by apply (inj Some) in Hc. }
  split.
  - rewrite Hsame. apply accept_cmd_eq_iff.
  - intros Hc Hvalid Hvalid'. apply Hsame, accept_cmd_eq_iff in Hc.
    destruct Hc as (_ & _ & _ & -> & _ & Hiface).
    rewrite !c_str_valid_name in Hiface by done. by rewrite Hiface.
Qed.

(** ** When minijail cannot run *)

(** X12: a command that minijail could not run is a failed command,
    whatever exit status is left behind.  On a host where minijail never
    runs anything, each of the four jailed rules answers failure; so no
    untracked hole can be punched, no tracked hole can be plugged, and no
    VPN setup succeeds. *)
Theorem unrunnable_commands_fail tool protocol port interface holes username
    usernames add st :
  (∀ user capmask argv w,
     (RunSyncAndDestroy user capmask argv w).1.1 = false) →
  (AddAcceptRule tool protocol port interface st).1 = false
  ∧ (DeleteAcceptRule tool protocol port interface st).1 = false
  ∧ (ApplyMasquerade tool interface add st).1 = false
  ∧ (ApplyMarkForUserTraffic tool username add st).1 = false
  ∧ ((port, interface) ∉ holes_of holes (self st) →
     (PunchHole port interface holes protocol st).1 = false)
  ∧ (PlugHole port interface holes protocol st).1 = false
  ∧ (RequestVpnSetup usernames interface st).1 = false.
Proof.
  intros Hdown.
  assert (Hjail : ∀ argv s, (exec (jailed argv) s).1 = false).
  { intros argv s. unfold exec, answer, jailed.
    specialize (Hdown (if android then None else Some "nobody") 12288%Z
                      (map c_str argv) (world s)).
    destruct (RunSyncAndDestroy _ _ _ _) as [[ran status] w].
    cbn [fst] in Hdown. by subst ran. }
  assert (Haccept : ∀ a tl pr n i s, (exec (accept_cmd a tl pr n i) s).1 = false).
  { intros. apply Hjail. }
  split_and!.
  - rewrite AddAcceptRule_exec. apply Hjail.
  - rewrite DeleteAcceptRule_exec. apply Hjail.
  - rewrite ApplyMasquerade_exec. apply Hjail.
  - rewrite ApplyMarkForUserTraffic_exec. apply Hjail.
  - intros Hnot.
    destruct (port =? 0)%N eqn:Eport.
    { by rewrite PunchHole_rejects by auto. }
    destruct (IsValidInterfaceName interface) eqn:Evalid; cycle 1.
    { by rewrite PunchHole_rejects by auto. }
    apply N.eqb_neq in Eport.
    rewrite PunchHole_unfold, bool_decide_eq_false_2 by done. cbn zeta.
    rewrite AddAcceptRules_unfold. cbn zeta. by rewrite Haccept.
  - destruct (decide (port = 0%N)) as [->|Hport]; [done|].
    rewrite PlugHole_unfold by done. case_bool_decide; [|done]. cbn zeta.
    rewrite DeleteAcceptRules_unfold. cbn zeta.
    destruct (ip6_enabled_ (self st)); cbn [fst snd]; by rewrite !Haccept.
  - unfold RequestVpnSetup. rewrite ApplyVpnSetup_unfold.
    unfold ApplyVpnSetup_body, bind.
    destruct (ApplyRuleForUserTraffic kIPv4 true st) as [[] s1];
      cbn [negb andb]; [|done].
    destruct (ApplyRuleForUserTraffic kIPv6 true s1) as [[] s2];
      cbn [negb andb];
      [|by destruct (ApplyVpnSetup [] interface false s2)].
    rewrite ApplyMasquerade46_unfold. cbn zeta. unfold masquerade_cmd at 1 2.
    rewrite Hjail. cbn [negb andb fst snd].
    by destruct (ApplyVpnSetup [] interface false _).
Qed.

(** ** A new object on Android *)

(** X16: on Android the constructor clears the flag, so a new object gets by
    without ip6tables.  When the iptables add of an untracked, well-formed
    pair succeeds and the ip6tables add fails, the punch succeeds all the
    same, the pair is tracked and the flag stays clear; the plug that
    follows runs the iptables delete alone. *)
Theorem android_gets_by_without_ip6tables members port interface holes
    protocol st :
  let add4 := accept_cmd true kIpTablesPath protocol port interface in
  let add6 := accept_cmd true kIp6TablesPath protocol port interface in
  let del4 := accept_cmd false kIpTablesPath protocol port interface in
  let r1 := PunchHole port interface holes protocol st in
  let r2 := PlugHole port interface holes protocol r1.2 in
  android = true → self st = IpTables_ctor members →
  port ≠ 0%N → IsValidInterfaceName interface = true →
  (port, interface) ∉ holes_of holes (self st) →
  (exec add4 st).1 = true → (exec add6 (exec add4 st).2).1 = false →
  r1.1 = true
  ∧ (port, interface) ∈ holes_of holes (self r1.2)
  ∧ ip6_enabled_ (self r1.2) = false
  ∧ issued r1.2 = issued st ++ [add4; add6]
  ∧ issued r2.2 = issued r1.2 ++ [del4].
Proof.
  intros add4 add6 del4 r1 r2 Handroid Hctor Hport Hvalid Hnot E4 E6.
  assert (Hflag : ip6_enabled_ (self st) = false).
  { rewrite Hctor. unfold IpTables_ctor. by rewrite Handroid. }
  assert (Hadd : AddAcceptRules protocol port interface st
                 = (true, (exec add6 (exec add4 st).2).2)).
  { rewrite AddAcceptRules_unfold. cbn zeta. fold add4 add6.
    by rewrite E4, E6, Hflag. }
  assert (Hr1 : r1 = (true,
            on_self (λ t, with_holes holes
                            ({[(port, interface)]} ∪ holes_of holes t) t)
                    (exec add6 (exec add4 st).2).2)).
  { unfold r1. rewrite PunchHole_unfold, bool_decide_eq_false_2 by done.
    cbn zeta. by rewrite Hadd. }
  assert (Hin : (port, interface) ∈ holes_of holes (self r1.2)).
  { rewrite Hr1. unfold on_self; cbn [snd self].
    rewrite holes_of_with_holes. set_solver. }
  assert (Hflag1 : ip6_enabled_ (self r1.2) = false).
  { rewrite Hr1. unfold on_self; cbn [snd self].
    by rewrite ip6_enabled_with_holes, !exec_self. }
  split_and!; [by rewrite Hr1|done|done| |].
  - rewrite Hr1. unfold on_self; cbn [snd issued].
    by rewrite !exec_issued, <- app_assoc.
  - unfold r2. rewrite PlugHole_unfold, bool_decide_eq_true_2 by done.
    cbn zeta. rewrite DeleteAcceptRules_unfold. cbn zeta. rewrite Hflag1.
    fold del4. destruct (exec del4 r1.2).1 eqn:Ed; cbn [fst snd].
    + unfold on_self; cbn [issued]. apply exec_issued.
    + apply exec_issued.
Qed.

End Properties.

(** * The theorems at work on a scripted host *)

#[local] Existing Instance test_host.

(** C1 at work: with the flag set, a failing ip6tables add is rolled back
    and the call fails. *)
Lemma AddAcceptRules_dual_stack_witness :
  (AddAcceptRules kProtocolTcp 80 "iface"
                  (fresh false true [Some 0; Some 1]%Z)).1 = false
  ∧ issued (AddAcceptRules kProtocolTcp 80 "iface"
                           (fresh false true [Some 0; Some 1]%Z)).2
    = [accept_cmd true kIpTablesPath kProtocolTcp 80 "iface";
       accept_cmd true kIp6TablesPath kProtocolTcp 80 "iface";
       accept_cmd false kIpTablesPath kProtocolTcp 80 "iface"].
Proof.
  destruct (AddAcceptRules_dual_stack kProtocolTcp 80 "iface"
              (fresh false true [Some 0; Some 1]%Z))
    as (_ & _ & Hrollback & _).
  destruct Hrollback as (Hr & Hissued & _); [reflexivity..|].
  split; [by rewrite Hr|exact Hissued].
Defined.

(** C4 at work: punching TCP port 80 twice issues the two add commands
    once. *)
Lemma PunchHole_idempotent_witness :
  80%N ≠ 0%N ∧ IsValidInterfaceName "iface" = true
  ∧ PunchHole 80 "iface" TcpHoles kProtocolTcp
      (PunchHole 80 "iface" TcpHoles kProtocolTcp (fresh false true [])).2
    = (true,
       (PunchHole 80 "iface" TcpHoles kProtocolTcp (fresh false true [])).2)
  ∧ issued
      (PunchHole 80 "iface" TcpHoles kProtocolTcp
         (PunchHole 80 "iface" TcpHoles kProtocolTcp (fresh false true [])).2).2
    = [accept_cmd true kIpTablesPath kProtocolTcp 80 "iface";
       accept_cmd true kIp6TablesPath kProtocolTcp 80 "iface"].
Proof.
  assert (Hport : 80%N ≠ 0%N) by done.
  assert (Hvalid : IsValidInterfaceName "iface" = true) by reflexivity.
  destruct (PunchHole_idempotent 80 "iface" TcpHoles kProtocolTcp
              (fresh false true []) Hport Hvalid) as (Htwice & _ & _).
  destruct Htwice as (Hr & _ & Hissued); [vm_compute; reflexivity|].
  split_and!; [exact Hport|exact Hvalid|exact Hr|exact Hissued].
Defined.

(** C5 at work: punch, plug, plug again. *)
Lemma PlugHole_not_idempotent_witness :
  (PunchHole 80 "iface" TcpHoles kProtocolTcp (fresh false true [])).1 = true
  ∧ (PlugHole 80 "iface" TcpHoles kProtocolTcp
       (PunchHole 80 "iface" TcpHoles kProtocolTcp (fresh false true [])).2).1
    = true
  ∧ (PlugHole 80 "iface" TcpHoles kProtocolTcp
       (PlugHole 80 "iface" TcpHoles kProtocolTcp
          (PunchHole 80 "iface" TcpHoles kProtocolTcp
             (fresh false true [])).2).2).1
    = false
  ∧ issued
      (PlugHole 80 "iface" TcpHoles kProtocolTcp
         (PunchHole 80 "iface" TcpHoles kProtocolTcp (fresh false true [])).2).2
    = issued (PunchHole 80 "iface" TcpHoles kProtocolTcp
                        (fresh false true [])).2
      ++ [accept_cmd false kIpTablesPath kProtocolTcp 80 "iface";
          accept_cmd false kIp6TablesPath kProtocolTcp 80 "iface"].
Proof.
  destruct (PlugHole_not_idempotent 80 "iface" TcpHoles kProtocolTcp
              (PunchHole 80 "iface" TcpHoles kProtocolTcp
                         (fresh false true [])).2)
    as (_ & _ & _ & _ & Hdeletes).
  destruct Hdeletes as (Hissued & _).
  { apply (reachable_registry_ok [CallPunchTcpHole 80 "iface"]
             (fresh false true [])); vm_compute; reflexivity. }
  { vm_compute. reflexivity. }
  destruct (PlugHole_not_idempotent 80 "iface" TcpHoles kProtocolTcp
              (fresh false true [])) as (_ & Hthird & _).
  split_and!; [vm_compute; reflexivity..| |exact Hissued].
  rewrite (Hthird
             (PunchHole 80 "iface" TcpHoles kProtocolTcp
                        (fresh false true [])).2
             (PlugHole 80 "iface" TcpHoles kProtocolTcp
                (PunchHole 80 "iface" TcpHoles kProtocolTcp
                           (fresh false true [])).2).2);
    [reflexivity|vm_compute; reflexivity..].
Defined.

(** C9 at work: the delete of a tracked hole fails during teardown, and the
    process dies with the hole still tracked. *)
Lemma PlugAllHoles_postcondition_witness :
  ∃ message st',
    PlugAllHoles
      (PunchTcpHole 80 "iface" (fresh false true [Some 0; Some 0; Some 1]%Z)).2
    = CheckFailed message st'
    ∧ (80%N, "iface") ∈ tcp_holes_ (self st').
Proof.
  destruct (PlugAllHoles_postcondition
              (PunchTcpHole 80 "iface"
                 (fresh false true [Some 0; Some 0; Some 1]%Z)).2)
    as (_ & _ & _ & Htcp & _).
  destruct (Htcp (80%N, "iface")) as [message Hdead].
  { exists [], []. split; vm_compute; reflexivity. }
  by eexists message, _.
Defined.

(** C3 at work. *)
Lemma ApplyVpnSetup_ipv6_rule_fails_witness :
  ApplyVpnSetup ["testuser0"; "testuser1"] "ifc0" true
                (fresh false true [Some 0; Some 1]%Z)
  = (false,
     (exec_all ([routing_cmd true kIPv4; routing_cmd true kIPv6]
                ++ removal_cmds [] "ifc0") (fresh false true [Some 0; Some 1]%Z)).2).
Proof.
  destruct (ApplyVpnSetup_ipv6_rule_fails ["testuser0"; "testuser1"] "ifc0"
              (fresh false true [Some 0; Some 1]%Z)) as (Hr & _);
    [reflexivity..|].
  rewrite Hr. vm_compute. reflexivity.
Defined.

(** C2 at work: the second user's primary mark fails. *)
Lemma ApplyVpnSetup_second_user_fails_witness :
  (ApplyVpnSetup ["testuser0"; "testuser1"; "testuser2"] "ifc0" true
     (fresh false true
        [Some 0; Some 0; Some 0; Some 0; Some 0; Some 0; Some 1]%Z)).1 = false
  ∧ issued
      (ApplyVpnSetup ["testuser0"; "testuser1"; "testuser2"] "ifc0" true
         (fresh false true
            [Some 0; Some 0; Some 0; Some 0; Some 0; Some 0; Some 1]%Z)).2
    = setup_cmds ["testuser0"] "ifc0"
      ++ [mark_cmd true kIpTablesPath "testuser1"]
      ++ removal_cmds ["testuser0"] "ifc0".
Proof.
  destruct (ApplyVpnSetup_second_user_fails "testuser0" "testuser1"
              ["testuser2"] "ifc0"
              (fresh false true
                 [Some 0; Some 0; Some 0; Some 0; Some 0; Some 0; Some 1]%Z))
    as (Hr & Hissued & _); [by repeat constructor|reflexivity|].
  split; [by rewrite Hr|].
  rewrite Hissued. vm_compute. reflexivity.
Defined.

(** ** The further properties at work *)

(** X3 at work: the ip6tables mark of the first user fails (command 5); the
    rollback is the removal sequence for no user. *)
Lemma RequestVpnSetup_failure_rollback_witness :
  ∃ n,
    issued (RequestVpnSetup ["testuser0"; "testuser1"] "ifc0"
              (fresh false true
                 [Some 0; Some 0; Some 0; Some 0; Some 0; Some 1]%Z)).2
    = [] ++ take (S n) (setup_cmds ["testuser0"; "testuser1"] "ifc0")
         ++ match n with
            | 0 => []
            | _ => removal_cmds (take ((n - 4) / 2) ["testuser0"; "testuser1"])
                                "ifc0"
            end.
Proof.
  destruct (RequestVpnSetup_failure_rollback ["testuser0"; "testuser1"] "ifc0"
              (fresh false true
                 [Some 0; Some 0; Some 0; Some 0; Some 0; Some 1]%Z))
    as (n & _ & _ & _ & Hissued); [vm_compute; reflexivity|].
  exists n. exact Hissued.
Defined.

(** X4 at work. *)
Lemma registry_stays_wellformed_witness :
  80%N ≠ 0%N ∧ valid_interface_name "iface".
Proof.
  apply (registry_stays_wellformed
           [CallPunchTcpHole 80 "iface"; CallPunchUdpHole 53 ""]
           (fresh false true [])
           (PunchUdpHole 53 ""
              (PunchTcpHole 80 "iface" (fresh false true [])).2).2
           (80%N, "iface")).
  - intros h Hin. vm_compute in Hin. discriminate Hin.
  - vm_compute. reflexivity.
  - vm_compute. reflexivity.
Defined.

(** X5 at work. *)
Lemma tracked_holes_were_requested_witness :
  holes_requested
    (PunchUdpHole 53 "" (PunchTcpHole 80 "iface" (fresh false true [])).2).2.
Proof.
  apply (tracked_holes_were_requested
           [CallPunchTcpHole 80 "iface"; CallPunchUdpHole 53 ""]
           (fresh false true [])); vm_compute; reflexivity.
Defined.

(** X6 at work: two TCP holes and a UDP hole, torn down in order. *)
Lemma PlugAllHoles_teardown_trace_witness :
  ∃ st',
    IpTables_dtor
      (PunchUdpHole 53 ""
         (PunchTcpHole 80 "iface"
            (PunchTcpHole 443 "iface" (fresh false true [])).2).2).2
    = Returned st'
    ∧ drop 6 (issued st')
      = [accept_cmd false kIpTablesPath kProtocolTcp 80 "iface";
         accept_cmd false kIp6TablesPath kProtocolTcp 80 "iface";
         accept_cmd false kIpTablesPath kProtocolTcp 443 "iface";
         accept_cmd false kIp6TablesPath kProtocolTcp 443 "iface";
         accept_cmd false kIpTablesPath kProtocolUdp 53 "";
         accept_cmd false kIp6TablesPath kProtocolUdp 53 ""].
Proof.
  destruct (IpTables_dtor
              (PunchUdpHole 53 ""
                 (PunchTcpHole 80 "iface"
                    (PunchTcpHole 443 "iface" (fresh false true [])).2).2).2)
    as [st'|message st'] eqn:E; [|vm_compute in E; discriminate].
  exists st'. split; [vm_compute; reflexivity|].
  destruct (PlugAllHoles_teardown_trace _ _ E) as (Hissued & _).
  rewrite Hissued. vm_compute. reflexivity.
Defined.

(** X7 at work: a punch, a VPN setup and a teardown that dies because the
    iptables delete fails; the delete is among the commands accounted for. *)
Lemma commands_are_sandboxed_witness :
  ∃ message st' cs,
    run_calls [CallPunchTcpHole 80 "iface";
               CallRequestVpnSetup ["testuser0"] "ifc0"; CallPlugAllHoles;
               CallPunchTcpHole 22 "iface"]
              (fresh false true (replicate 8 (Some 0%Z) ++ [Some 1%Z]))
    = CheckFailed message st'
    ∧ issued st' = [] ++ cs
    ∧ last cs = Some (accept_cmd false kIp6TablesPath kProtocolTcp 80 "iface")
    ∧ Forall sandboxed cs.
Proof.
  destruct (commands_are_sandboxed
              [CallPunchTcpHole 80 "iface";
               CallRequestVpnSetup ["testuser0"] "ifc0"; CallPlugAllHoles;
               CallPunchTcpHole 22 "iface"]
              (fresh false true (replicate 8 (Some 0%Z) ++ [Some 1%Z])))
    as (cs & Hissued & Hcs).
  destruct (run_calls _ _) as [st'|message st'] eqn:E;
    [vm_compute in E; discriminate|].
  exists message, st', cs. cbn [outcome_state] in Hissued.
  split_and!; [reflexivity|exact Hissued| |exact Hcs].
  assert (Hlast : last (issued st')
            = Some (accept_cmd false kIp6TablesPath kProtocolTcp 80 "iface")).
  { vm_compute in E. injection E as _ <-. vm_compute. reflexivity. }
  rewrite Hissued in Hlast. exact Hlast.
Defined.

(** X8 at work: the iptables delete fails, the pair stays tracked, and the
    teardown dies. *)
Lemma hole_commands_are_validated_witness :
  ∃ message st' cs,
    run_calls [CallPunchTcpHole 80 "iface"; CallPlugTcpHole 80 "not valid";
               CallPlugAllHoles]
              (fresh false true [Some 0; Some 0; Some 1]%Z)
    = CheckFailed message st'
    ∧ issued st' = [] ++ cs ∧ Forall validated_accept cs.
Proof.
  assert (Hcalls : Forall hole_call
            [CallPunchTcpHole 80 "iface"; CallPlugTcpHole 80 "not valid";
             CallPlugAllHoles]) by (repeat constructor).
  assert (Hok : registry_ok (self (fresh false true [Some 0; Some 0; Some 1]%Z))).
  { intros h Hin. vm_compute in Hin. discriminate Hin. }
  destruct (hole_commands_are_validated
              [CallPunchTcpHole 80 "iface"; CallPlugTcpHole 80 "not valid";
               CallPlugAllHoles]
              (fresh false true [Some 0; Some 0; Some 1]%Z) Hcalls Hok)
    as (cs & Hissued & Hcs).
  destruct (run_calls _ _) as [st'|message st'] eqn:E;
    [vm_compute in E; discriminate|].
  exists message, st', cs. cbn [outcome_state] in Hissued.
  split_and!; [reflexivity|exact Hissued|exact Hcs].
Defined.

(** X9 at work: punching TCP port 80 leaves TCP port 443 tracked. *)
Lemma registry_frame_witness :
  (443%N, "iface")
  ∈ tcp_holes_ (self (PunchHole 80 "iface" TcpHoles kProtocolTcp
                        (PunchTcpHole 443 "iface" (fresh false true [])).2).2).
Proof.
  apply (registry_frame 80 "iface" TcpHoles kProtocolTcp
           (PunchTcpHole 443 "iface" (fresh false true [])).2
           TcpHoles (443%N, "iface")); [discriminate|].
  vm_compute. reflexivity.
Defined.

(** X11 at work: two interfaces that differ after a NUL run one and the
    same command. *)
Lemma accept_rule_command_tells_rule_witness :
  last (issued (AddAcceptRule kIpTablesPath kProtocolTcp 80
                  (String "a" (String "000" "b")) (fresh false true [])).2)
  = last (issued (AddAcceptRule kIpTablesPath kProtocolTcp 80
                    (String "a" (String "000" "c")) (fresh false true [])).2).
Proof.
  apply (accept_rule_command_tells_rule true true kIpTablesPath kIpTablesPath
           kProtocolTcp kProtocolTcp 80 80
           (String "a" (String "000" "b")) (String "a" (String "000" "c"))
           (fresh false true []) (fresh false true [])).
  by split_and!.
Defined.

(** X12 at work, on the host where minijail is down. *)
Lemma unrunnable_commands_fail_witness :
  (@PunchHole jail_down 80 "iface" TcpHoles kProtocolTcp
     (@Build_State jail_down
        {| tcp_holes_ := ∅; udp_holes_ := ∅; ip6_enabled_ := false |} tt [])).1
  = false
  ∧ (@RequestVpnSetup jail_down ["testuser0"] "ifc0"
       (@Build_State jail_down
          {| tcp_holes_ := ∅; udp_holes_ := ∅; ip6_enabled_ := false |}
          tt [])).1
    = false.
Proof.
  destruct (unrunnable_commands_fail (host := jail_down) kIpTablesPath
              kProtocolTcp 80 "iface" TcpHoles "testuser0" ["testuser0"] true
              (@Build_State jail_down
                 {| tcp_holes_ := ∅; udp_holes_ := ∅; ip6_enabled_ := false |}
                 tt []))
    as (_ & _ & _ & _ & Hpunch & _ & Hvpn); [vm_compute; reflexivity|].
  split; [apply Hpunch|exact Hvpn].
  intros Hin. vm_compute in Hin. discriminate Hin.
Defined.

(** X13 at work. *)
Lemma punch_then_plug_restores_witness :
  tcp_holes_
    (self (PlugHole 80 "iface" TcpHoles kProtocolTcp
             (PunchHole 80 "iface" TcpHoles kProtocolTcp
                        (fresh false false [])).2).2)
  = tcp_holes_ (self (fresh false false []))
  ∧ ip6_enabled_
      (self (PlugHole 80 "iface" TcpHoles kProtocolTcp
               (PunchHole 80 "iface" TcpHoles kProtocolTcp
                          (fresh false false [])).2).2)
    = true.
Proof.
  destruct (punch_then_plug_restores 80 "iface" TcpHoles kProtocolTcp
              (fresh false false []))
    as (Htcp & _ & Hflag & _); [|vm_compute; reflexivity..|by split].
  intros Hin. vm_compute in Hin. discriminate Hin.
Defined.

(** X14 at work: the ip6tables delete fails after the iptables delete. *)
Lemma failed_plug_keeps_tracking_witness :
  (PlugHole 80 "iface" TcpHoles kProtocolTcp
     (PunchTcpHole 80 "iface"
        (fresh false true [Some 0; Some 0; Some 0; Some 1]%Z)).2).1 = false
  ∧ (PunchHole 80 "iface" TcpHoles kProtocolTcp
       (PlugHole 80 "iface" TcpHoles kProtocolTcp
          (PunchTcpHole 80 "iface"
             (fresh false true [Some 0; Some 0; Some 0; Some 1]%Z)).2).2).1
    = true.
Proof.
  destruct (failed_plug_keeps_tracking 80 "iface" TcpHoles kProtocolTcp
              (PunchTcpHole 80 "iface"
                 (fresh false true [Some 0; Some 0; Some 0; Some 1]%Z)).2)
    as (Hfail & _ & _ & Hpunch);
    [done|vm_compute; reflexivity..|].
  split; [exact Hfail|by rewrite Hpunch].
Defined.

(** X16 at work, on the scripted Android host. *)
Lemma android_gets_by_without_ip6tables_witness :
  (@PunchHole (scripted true) 80 "wlan0" TcpHoles kProtocolTcp
     (fresh true false [Some 0; Some 2]%Z)).1 = true
  ∧ ip6_enabled_
      (self (@PunchHole (scripted true) 80 "wlan0" TcpHoles kProtocolTcp
               (fresh true false [Some 0; Some 2]%Z)).2) = false.
Proof.
  destruct (android_gets_by_without_ip6tables (host := scripted true)
              {| tcp_holes_ := ∅; udp_holes_ := ∅; ip6_enabled_ := true |}
              80 "wlan0" TcpHoles kProtocolTcp
              (fresh true false [Some 0; Some 2]%Z))
    as (Hok & _ & Hflag & _);
    [reflexivity|reflexivity|done|vm_compute; reflexivity| |vm_compute; reflexivity..|by split].
  intros Hin. vm_compute in Hin. discriminate Hin.
Defined.

(** ** The repository's unit tests, replayed *)

(** Port0Fails and InvalidInterfaceName: nothing is issued. *)
Example replay_Port0Fails :
  PunchTcpHole 0 "iface" (fresh false true []) = (false, fresh false true [])
  ∧ PunchUdpHole 0 "iface" (fresh false true []) = (false, fresh false true [])
  ∧ PunchTcpHole 80 "with spaces" (fresh false true [])
    = (false, fresh false true []).
Proof. split_and!; vm_compute; reflexivity. Qed.

(** PlugTcpHoleSucceeds: punch, plug, and a second plug that fails. *)
Example replay_PlugTcpHoleSucceeds :
  let st1 := (PunchTcpHole 80 "iface" (fresh false true [])).2 in
  let st2 := (PlugTcpHole 80 "iface" st1).2 in
  (PunchTcpHole 80 "iface" (fresh false true [])).1 = true
  ∧ (PlugTcpHole 80 "iface" st1).1 = true
  ∧ PlugTcpHole 80 "iface" st2 = (false, st2).
Proof. cbv zeta. split_and!; vm_compute; reflexivity. Qed.

(** PunchTcpHoleIpv6Fails: ip6tables is required to work, and does not. *)
Example replay_PunchTcpHoleIpv6Fails :
  (PunchTcpHole 80 "iface" (fresh false true [Some 0; Some 1]%Z)).1 = false
  ∧ tcp_holes_ (self (PunchTcpHole 80 "iface"
                        (fresh false true [Some 0; Some 1]%Z)).2) = ∅.
Proof. split; vm_compute; reflexivity. Qed.

(** ApplyVpnSetupAddFailureInMasquerade: the masquerade add fails on
    iptables; both routing rules and the masquerade rule of both tools are
    removed, and no mark is touched. *)
Example replay_ApplyVpnSetupAddFailureInMasquerade :
  let r := ApplyVpnSetup ["testuser0"; "testuser1"] "ifc0" true
             (fresh false true [Some 0; Some 0; Some 1]%Z) in
  r.1 = false
  ∧ issued r.2
    = [routing_cmd true kIPv4; routing_cmd true kIPv6;
       masquerade_cmd true kIpTablesPath "ifc0"]
      ++ removal_cmds [] "ifc0".
Proof. cbv zeta. split; vm_compute; reflexivity. Qed.

(** ApplyVpnSetupRemoveFailure: every removal is issued although each one
    fails. *)
Example replay_ApplyVpnSetupRemoveFailure :
  let r := ApplyVpnSetup ["testuser0"; "testuser1"] "ifc0" false
             (fresh false true (replicate 8 (Some 1%Z))) in
  r.1 = false ∧ issued r.2 = removal_cmds ["testuser0"; "testuser1"] "ifc0".
Proof. cbv zeta. split; vm_compute; reflexivity. Qed.

(** ** Where the code departs from the specification's wording *)

(** C2 as worded fails: on a host where the seventh command (the second
    user's primary mark) fails, the call does fail after the setup for the
    first user, but the rollback is not issued in the order "marks,
    masquerade, routing rules": the routing rules go first and the first
    user's marks last. *)
Lemma ApplyVpnSetup_second_user_fails_counterexample :
  let st := fresh false true
              [Some 0; Some 0; Some 0; Some 0; Some 0; Some 0; Some 1]%Z in
  let r := ApplyVpnSetup ["testuser0"; "testuser1"] "ifc0" true st in
  let installed := setup_cmds ["testuser0"] "ifc0"
                   ++ [mark_cmd true kIpTablesPath "testuser1"] in
  Forall (λ ok, ok = true) (exec_all (setup_cmds ["testuser0"] "ifc0") st).1
  ∧ (ApplyMarkForUserTraffic46 "testuser1" true
       (exec_all (setup_cmds ["testuser0"] "ifc0") st).2).1 = false
  ∧ r.1 = false
  ∧ issued r.2 ≠ installed ++ rollback_as_specified "testuser0" "ifc0"
  ∧ issued r.2 = installed ++ removal_cmds ["testuser0"] "ifc0"
  ∧ ¬ issued_before (mark_cmd false kIpTablesPath "testuser0")
                    (masquerade_cmd false kIpTablesPath "ifc0") (issued r.2)
  ∧ ¬ issued_before (masquerade_cmd false kIpTablesPath "ifc0")
                    (routing_cmd false kIPv4) (issued r.2).
Proof.
  cbv zeta. split_and!.
  - vm_compute. repeat constructor.
  - vm_compute. reflexivity.
  - vm_compute. reflexivity.
  - vm_compute. discriminate.
  - vm_compute. reflexivity.
  - vm_compute. lia.
  - vm_compute. lia.
Qed.

(** C3 as worded fails: on a host where the IPv4 routing rule is installed
    and the IPv6 one fails, the rollback is not the removal of the IPv4
    routing rule alone: removals of the IPv6 routing rule and of the
    masquerade rule are issued as well. *)
Lemma ApplyVpnSetup_ipv6_rule_fails_counterexample :
  let st := fresh false true [Some 0; Some 1]%Z in
  let r := ApplyVpnSetup ["testuser0"; "testuser1"] "ifc0" true st in
  (exec (routing_cmd true kIPv4) st).1 = true
  ∧ (exec (routing_cmd true kIPv6) (exec (routing_cmd true kIPv4) st).2).1
    = false
  ∧ r.1 = false
  ∧ issued r.2 ≠ [routing_cmd true kIPv4; routing_cmd true kIPv6]
                 ++ rollback_of_step_one
  ∧ position (routing_cmd false kIPv6) (issued r.2) = Some 3
  ∧ position (masquerade_cmd false kIpTablesPath "ifc0") (issued r.2) = Some 4
  ∧ position (masquerade_cmd false kIp6TablesPath "ifc0") (issued r.2)
    = Some 5.
Proof.
  cbv zeta. split_and!; vm_compute; (reflexivity || discriminate).
Qed.
